(** * Playlist API: authentication, tokens and ownership scoping

    A shallow embedding of [index.js]: the token helpers [toJWT] and
    [toData], the [auth] middleware and the seven route handlers, over an
    explicit model of the three tables.

    The packages the program calls ([jsonwebtoken], [bcrypt], the
    Sequelize/PostgreSQL store) are not part of the program.  Their
    algorithms are written out as far as the program depends on them; the
    primitives below them (base64url/JSON coding of a token segment, the
    HMAC, the bcrypt digest, the store's coercion of foreign JavaScript
    values) are the fields of the record [libs], about which nothing is
    assumed except what a statement says. *)

From stdpp Require Import base gmap strings list pretty.
From Stdlib Require Import ZArith Lia Ascii.

Local Open Scope Z_scope.
Local Open Scope string_scope.

(** ** JavaScript values *)

(** The values a parsed JSON body, or a token payload, holds for a key.
    [JObject] stands for any array or object: the program never looks
    inside one, and two of them obtained from a parsed body are never the
    same object.  Numbers are the integers. *)
Inductive jsval :=
  | JUndefined
  | JNull
  | JBool (b : bool)
  | JNum (n : Z)
  | JStr (s : string)
  | JObject.

(** [a === b] *)
Definition strict_eq (a b : jsval) : bool :=
  match a, b with
  | JUndefined, JUndefined => true
  | JNull, JNull => true
  | JBool x, JBool y => Bool.eqb x y
  | JNum x, JNum y => Z.eqb x y
  | JStr x, JStr y => String.eqb x y
  | _, _ => false
  end.

(** A plain object; [prop o k] is the property access [o.k]. *)
Abbreviation jsobj := (gmap string jsval).

Definition prop (o : jsobj) (k : string) : jsval := default JUndefined (o !! k).

(** What a [throw] or a rejected promise carries. *)
Record jserror := mkError { err_name : string; err_message : string }.

Definition Error (msg : string) : jserror := mkError "Error" msg.

(** ** Strings *)

(** [s.split(sep)] for a one-character separator. *)
Fixpoint split_on (sep : ascii) (s : string) : list string :=
  match s with
  | EmptyString => [""]
  | String c r =>
      if Ascii.eqb c sep then "" :: split_on sep r
      else match split_on sep r with
           | [] => [String c ""]
           | h :: t => String c h :: t
           end
  end.

Definition is_space (c : ascii) : bool :=
  let n := nat_of_ascii c in
  ((9 <=? n)%nat && (n <=? 13)%nat) || (n =? 32)%nat || (n =? 160)%nat.

(** [s.trim() === ''] *)
Fixpoint is_blank (s : string) : bool :=
  match s with
  | EmptyString => true
  | String c r => is_space c && is_blank r
  end.

Fixpoint has_char (c : ascii) (s : string) : bool :=
  match s with
  | EmptyString => false
  | String d r => Ascii.eqb d c || has_char c r
  end.

(** ** The packages *)

(** What [jws.decode] makes of a compact token. *)
Inductive jws_decoded :=
  | Decoded (header payload : jsobj)
  | NotJws
  | DecodeThrows (e : jserror).

Record libs := {
  (** base64url of the JSON text of an object *)
  encode_segment : jsobj -> string;
  (** [jws.decode(token, {complete: true})] *)
  jws_decode : string -> jws_decoded;
  (** [jwa(alg).sign(input, secret)], base64url *)
  jwa_sign : string -> string -> string -> string;
  (** the algorithms [jwt.verify] accepts for a key when none are given *)
  verify_algorithms : string -> list string;
  (** [bcrypt.genSaltSync(rounds)] from the random bytes it draws *)
  gen_salt : Z -> string -> string;
  (** the bcrypt digest of a key under the salt a salt or hash string starts with *)
  bcrypt_hash : string -> string -> string;
  (** whether a string starts with a well-formed bcrypt salt *)
  validate_salt : string -> bool;
  (** the store's reading of a value, other than a string or null, for a TEXT column;
      [None] when the store refuses the value *)
  coerce_text : jsval -> option (option string);
  (** the store's reading of a value, other than a string or null, that a TEXT
      column is compared with in a where clause; [None] when it refuses it *)
  coerce_where : jsval -> option (option string);
  (** the store's reading of a value, other than a number, null or undefined,
      as a primary key *)
  coerce_key : jsval -> option (option Z)
}.

(** ** jsonwebtoken *)

Definition JsonWebTokenError (msg : string) : jserror := mkError "JsonWebTokenError" msg.
Definition TokenExpiredError (msg : string) : jserror := mkError "TokenExpiredError" msg.
Definition NotBeforeError (msg : string) : jserror := mkError "NotBeforeError" msg.

(** [Math.floor(Date.now() / 1000)] *)
Definition clock (now_ms : Z) : Z := now_ms / 1000.

(** [ms('2h') / 1000] *)
Definition two_hours : Z := 7200.

Definition jose_header : jsobj := {[ "alg" := JStr "HS256"; "typ" := JStr "JWT" ]}.

(** The payload [jwt.sign] signs for [{ expiresIn: '2h' }]: the given
    object with [iat] and [exp] set. *)
Definition stamped (payload : jsobj) (now_ms : Z) : jsobj :=
  <[ "exp" := JNum (clock now_ms + two_hours) ]> (<[ "iat" := JNum (clock now_ms) ]> payload).

Definition signing_input (L : libs) (payload : jsobj) : string :=
  encode_segment L jose_header +:+ "." +:+ encode_segment L payload.

(** [jwt.sign(payload, secret, { expiresIn: '2h' })], for an object payload
    that sets none of [iat], [exp], [nbf] itself and a non-empty secret. *)
Definition jwt_sign (L : libs) (payload : jsobj) (secret : string) (now_ms : Z) : string :=
  let input := signing_input L (stamped payload now_ms) in
  input +:+ "." +:+ jwa_sign L "HS256" secret input.

(** The time checks of [jwt.verify] on a payload whose signature holds:
    [nbf] first, then [exp]. *)
Definition check_exp (payload : jsobj) (now_ms : Z) : jserror + jsobj :=
  match prop payload "exp" with
  | JUndefined => inr payload
  | JNum e =>
      if (e <=? clock now_ms)%Z then inl (TokenExpiredError "jwt expired")
      else inr payload
  | _ => inl (JsonWebTokenError "invalid exp value")
  end.

Definition check_times (payload : jsobj) (now_ms : Z) : jserror + jsobj :=
  match prop payload "nbf" with
  | JUndefined => check_exp payload now_ms
  | JNum nbf =>
      if (clock now_ms <? nbf)%Z then inl (NotBeforeError "jwt not active")
      else check_exp payload now_ms
  | _ => inl (JsonWebTokenError "invalid nbf value")
  end.

(** [jwt.verify(token, secret)] for a non-empty secret and no options. *)
Definition jwt_verify (L : libs) (token secret : string) (now_ms : Z) : jserror + jsobj :=
  if String.eqb token "" then inl (JsonWebTokenError "jwt must be provided")
  else
    match split_on "."%char token with
    | [p0; p1; p2] =>
        match jws_decode L token with
        | DecodeThrows e => inl e
        | NotJws => inl (JsonWebTokenError "invalid token")
        | Decoded header payload =>
            if is_blank p2 then inl (JsonWebTokenError "jwt signature is required")
            else
              match prop header "alg" with
              | JStr alg =>
                  if bool_decide (alg ∈ verify_algorithms L secret) then
                    if String.eqb p2 (jwa_sign L alg secret (p0 +:+ "." +:+ p1))
                    then check_times payload now_ms
                    else inl (JsonWebTokenError "invalid signature")
                  else inl (JsonWebTokenError "invalid algorithm")
              | _ => inl (JsonWebTokenError "invalid algorithm")
              end
        end
    | _ => inl (JsonWebTokenError "jwt malformed")
    end.

(** ** Token helpers of the program *)

(** The claims the program signs: [{ userId: user.id }]. *)
Record claims := { userId : Z }.

Definition claims_obj (data : claims) : jsobj := {[ "userId" := JNum (userId data) ]}.

Section Tokens.

Variable L : libs.
(** [process.env.JWT_SECRET]; the program exits at start when it is unset or empty. *)
Variable jwtSecret : string.

Definition toJWT (data : claims) (now_ms : Z) : string :=
  jwt_sign L (claims_obj data) jwtSecret now_ms.

Definition toData (token : string) (now_ms : Z) : jserror + jsobj :=
  jwt_verify L token jwtSecret now_ms.

End Tokens.

(** ** bcrypt *)

(** [bcrypt.hashSync(data, 10)]; [random] is what the salt generator draws. *)
Definition hashSync (L : libs) (data : jsval) (random : string) : jserror + string :=
  match data with
  | JUndefined | JNull => inl (Error "data and salt arguments required")
  | JStr s => inr (bcrypt_hash L s (gen_salt L 10 random))
  | _ => inl (Error "data must be a string or Buffer and salt must either be a salt string or a number of rounds")
  end.

(** [bcrypt.compareSync(data, hash)]: the digest of [data] under the salt
    of [hash] is compared with [hash]. *)
Definition compareSync (L : libs) (data : jsval) (hash : option string) : jserror + bool :=
  match data, hash with
  | JUndefined, _ | JNull, _ | _, None => inl (Error "data and hash arguments required")
  | JStr s, Some h => inr (validate_salt L h && String.eqb (bcrypt_hash L s h) h)
  | _, Some _ => inl (Error "data and hash must be strings")
  end.

(** ** The store *)

(** The three tables as [sequelize.define] and the two [hasMany] declare
    them: an integer key from a sequence, nullable TEXT columns, and a
    nullable foreign key. *)
Record user := { user_id : Z; user_email : option string; user_password : option string }.

Record playlist := { playlist_id : Z; playlist_name : option string; playlist_userId : option Z }.

Record song := {
  song_id : Z;
  song_title : option string;
  song_artist : option string;
  song_album : option string;
  song_playlistId : option Z
}.

(** The rows of each table and the last value of each key sequence.  The
    lists fix one order in which a scan returns the rows; the store
    promises none without an ORDER BY, and a row moves when it is updated.
    Of the program's queries only the lookup by email depends on it (it
    takes the first row that matches). *)
Record database := {
  users : list user;
  users_seq : Z;
  playlists : list playlist;
  playlists_seq : Z;
  songs : list song;
  songs_seq : Z
}.

Definition unique_violation : jserror :=
  mkError "SequelizeUniqueConstraintError" "Validation error".
Definition foreign_key_violation : jserror :=
  mkError "SequelizeForeignKeyConstraintError" "insert or update violates foreign key constraint".

(** A string as the store receives it in a statement: the store cannot
    hold a NUL character, and the query builder writes each one as a
    backslash followed by the digit 0. *)
Fixpoint escape_nul (s : string) : string :=
  match s with
  | EmptyString => EmptyString
  | String c r =>
      if Ascii.eqb c Ascii.zero then String "\"%char (String "0"%char (escape_nul r))
      else String c (escape_nul r)
  end.

(** The last key a serial column can take (a 32-bit integer). *)
Definition max_key : Z := 2147483647.

Definition sequence_exhausted : jserror :=
  mkError "SequelizeDatabaseError" "nextval: reached maximum value of sequence".

(** A value written to a TEXT column, and a value a TEXT column is compared with. *)
Definition text_value (L : libs) (v : jsval) : jserror + option string :=
  match v with
  | JStr s => inr (Some (escape_nul s))
  | JNull | JUndefined => inr None
  | _ => match coerce_text L v with Some t => inr t | None => inl (mkError "SequelizeDatabaseError" "invalid value") end
  end.

Definition text_where (L : libs) (v : jsval) : jserror + option string :=
  match v with
  | JStr s => inr (Some (escape_nul s))
  | JNull => inr None
  | _ => match coerce_where L v with Some t => inr t | None => inl (mkError "SequelizeDatabaseError" "invalid value") end
  end.

(** The key [findByPk] looks for; [inr None] is the lookup that finds nothing. *)
Definition key_of (L : libs) (v : jsval) : jserror + option Z :=
  match v with
  | JNum n => inr (Some n)
  | JNull | JUndefined => inr None
  | _ => match coerce_key L v with Some k => inr k | None => inl (mkError "SequelizeDatabaseError" "invalid value") end
  end.

Definition has_id (k : Z) (u : user) : bool := (user_id u =? k)%Z.

(** [User.findByPk(k)] for a key of the table's type *)
Definition User_find (k : Z) (st : database) : option user := List.find (has_id k) (users st).

(** [User.findByPk(v)] *)
Definition User_findByPk (L : libs) (v : jsval) (st : database) : jserror + option user :=
  match key_of L v with
  | inl e => inl e
  | inr None => inr None
  | inr (Some k) => inr (User_find k st)
  end.

Definition has_email (e : option string) (u : user) : bool := bool_decide (user_email u = e).

(** [User.findOne({ where: { email: v } })] *)
Definition User_findOne (L : libs) (v : jsval) (st : database) : jserror + option user :=
  match text_where L v with
  | inl e => inl e
  | inr e => inr (List.find (has_email e) (users st))
  end.

(** [User.create({ email, password })]: the next key of the sequence, which
    fails once the last key of the column is used; the primary key refuses
    a key already in the table. *)
Definition User_create (email password : option string) (st : database)
  : (jserror + user) * database :=
  let k := (users_seq st + 1)%Z in
  let row := {| user_id := k; user_email := email; user_password := password |} in
  if (max_key <? k)%Z then (inl sequence_exhausted, st)
  else if existsb (has_id k) (users st) then
    (inl unique_violation,
     {| users := users st; users_seq := k; playlists := playlists st;
        playlists_seq := playlists_seq st; songs := songs st; songs_seq := songs_seq st |})
  else
    (inr row,
     {| users := (users st ++ [row])%list; users_seq := k; playlists := playlists st;
        playlists_seq := playlists_seq st; songs := songs st; songs_seq := songs_seq st |}).

(** [where: { userId: uid }] *)
Definition owned_by (uid : Z) (p : playlist) : bool := bool_decide (playlist_userId p = Some uid).

(** [where: { userId: uid, id: k }] *)
Definition owned_with_id (uid k : Z) (p : playlist) : bool :=
  owned_by uid p && (playlist_id p =? k)%Z.

Definition Playlist_findAll (uid : Z) (st : database) : list playlist :=
  List.filter (owned_by uid) (playlists st).

Definition Playlist_findOne (uid k : Z) (st : database) : option playlist :=
  List.find (owned_with_id uid k) (playlists st).

(** [Playlist.create({ name, userId })] *)
Definition Playlist_create (name : option string) (uid : Z) (st : database)
  : (jserror + playlist) * database :=
  let k := (playlists_seq st + 1)%Z in
  let row := {| playlist_id := k; playlist_name := name; playlist_userId := Some uid |} in
  let advanced ps :=
    {| users := users st; users_seq := users_seq st; playlists := ps;
       playlists_seq := k; songs := songs st; songs_seq := songs_seq st |} in
  if (max_key <? k)%Z then (inl sequence_exhausted, st)
  else if existsb (fun p => (playlist_id p =? k)%Z) (playlists st) then
    (inl unique_violation, advanced (playlists st))
  else if existsb (has_id uid) (users st) then (inr row, advanced (playlists st ++ [row])%list)
  else (inl foreign_key_violation, advanced (playlists st)).

(** [ON DELETE SET NULL] of the songs' foreign key *)
Definition orphan (gone : list Z) (s : song) : song :=
  match song_playlistId s with
  | Some k =>
      if bool_decide (k ∈ gone) then
        {| song_id := song_id s; song_title := song_title s; song_artist := song_artist s;
           song_album := song_album s; song_playlistId := None |}
      else s
  | None => s
  end.

(** [Playlist.destroy({ where: { userId: uid, id: k } })]: the number of rows deleted. *)
Definition Playlist_destroy (uid k : Z) (st : database) : Z * database :=
  let gone := List.filter (owned_with_id uid k) (playlists st) in
  (Z.of_nat (length gone),
   {| users := users st; users_seq := users_seq st;
      playlists := List.filter (fun p => negb (owned_with_id uid k p)) (playlists st);
      playlists_seq := playlists_seq st;
      songs := map (orphan (map playlist_id gone)) (songs st);
      songs_seq := songs_seq st |}).

Definition in_playlist (k : Z) (s : song) : bool := bool_decide (song_playlistId s = Some k).

(** [Song.create({ title, artist, album, playlistId })] *)
Definition Song_create (title artist album : option string) (pid : Z) (st : database)
  : (jserror + song) * database :=
  let k := (songs_seq st + 1)%Z in
  let row := {| song_id := k; song_title := title; song_artist := artist;
                song_album := album; song_playlistId := Some pid |} in
  let advanced ss :=
    {| users := users st; users_seq := users_seq st; playlists := playlists st;
       playlists_seq := playlists_seq st; songs := ss; songs_seq := k |} in
  if (max_key <? k)%Z then (inl sequence_exhausted, st)
  else if existsb (fun s => (song_id s =? k)%Z) (songs st) then
    (inl unique_violation, advanced (songs st))
  else if existsb (fun p => (playlist_id p =? pid)%Z) (playlists st) then
    (inr row, advanced (songs st ++ [row])%list)
  else (inl foreign_key_violation, advanced (songs st)).

(** ** Responses *)

#[local] Set Warnings "-register-all".
Inductive json :=
  | JsonNull
  | JsonNum (n : Z)
  | JsonStr (s : string)
  | JsonArr (items : list json)
  | JsonObj (members : list (string * json)).

Definition json_text (t : option string) : json :=
  match t with Some s => JsonStr s | None => JsonNull end.

Definition json_key (k : option Z) : json :=
  match k with Some n => JsonNum n | None => JsonNull end.

(** The attributes of a row, as an instance serialises them. *)
Definition user_json (u : user) : list (string * json) :=
  [("id", JsonNum (user_id u)); ("email", json_text (user_email u));
   ("password", json_text (user_password u))].

Definition playlist_json (p : playlist) : list (string * json) :=
  [("id", JsonNum (playlist_id p)); ("name", json_text (playlist_name p));
   ("userId", json_key (playlist_userId p))].

Definition song_json (s : song) : list (string * json) :=
  [("id", JsonNum (song_id s)); ("title", json_text (song_title s));
   ("artist", json_text (song_artist s)); ("album", json_text (song_album s));
   ("playlistId", json_key (song_playlistId s))].

Fixpoint member (k : string) (o : list (string * json)) : option json :=
  match o with
  | [] => None
  | (k', v) :: r => if String.eqb k' k then Some v else member k r
  end.

(** [attributes: [...]]: only the listed attributes are selected, in that order. *)
Definition attributes (names : list string) (o : list (string * json)) : list (string * json) :=
  omap (fun k => option_map (pair k) (member k o)) names.

Definition error_body (msg : string) : json := JsonObj [("error", JsonStr msg)].

(** How a middleware or a handler ends. *)
Inductive outcome :=
  | Sent (status : Z) (body : json)        (* res.status(..).json(..) / res.send(..) *)
  | NextError (e : string + jserror)       (* next(e): handed to the error handling *)
  | Rejected (e : jserror).                (* the async handler's promise is rejected *)

(** ** Requests *)

Record request := {
  authorization : option string;   (* req.headers.authorization *)
  params_id : Z;                   (* req.params.id, as the key the store reads it as (see at_id) *)
  body : jsobj;                    (* req.body, after express.json() *)
  req_user : option user           (* req.user *)
}.

Definition set_user (req : request) (u : user) : request :=
  {| authorization := authorization req; params_id := params_id req;
     body := body req; req_user := Some u |}.

Definition no_user : jserror := mkError "TypeError" "Cannot read property 'id' of undefined".

(** ** The middleware and the routes *)

(** The calls a request makes that leave no other trace: a verification of
    a token, a lookup of the token's user, the entry into the route's handler. *)
Inductive call :=
  | CallVerify (token : string)
  | CallFindUser (key : jsval)
  | CallHandler.

(** [req.headers.authorization && req.headers.authorization.split(' ')]:
    [None] when the value is falsy. *)
Definition header_parts (h : option string) : option (list string) :=
  match h with
  | None => None
  | Some s => if String.eqb s "" then None else Some (split_on " "%char s)
  end.

(** The guard [auth && auth[0] === 'Bearer' && auth[1]], and the [auth[1]] it lets through. *)
Definition bearer_token (h : option string) : option string :=
  match header_parts h with
  | Some (a0 :: a1 :: _) =>
      if String.eqb a0 "Bearer" && negb (String.eqb a1 "") then Some a1 else None
  | _ => None
  end.

Inductive auth_result :=
  | Proceed (req : request)     (* next() *)
  | Stop (o : outcome).

Record run := { out : outcome; store : database; calls : list call }.

Section Server.

Variable L : libs.
Variable jwtSecret : string.

Definition auth (req : request) (now_ms : Z) (st : database) : auth_result * list call :=
  match bearer_token (authorization req) with
  | Some token =>
      match toData L jwtSecret token now_ms with
      | inr data =>
          let key := prop data "userId" in
          match User_findByPk L key st with
          | inr None =>
              (Stop (NextError (inl "User does not exist")), [CallVerify token; CallFindUser key])
          | inr (Some user) =>
              (Proceed (set_user req user), [CallVerify token; CallFindUser key])
          | inl e => (Stop (NextError (inr e)), [CallVerify token; CallFindUser key])
          end
      | inl error =>
          (Stop (Sent 400 (error_body ("Error " +:+ err_name error +:+ ": " +:+ err_message error))),
           [CallVerify token])
      end
  | None => (Stop (Sent 401 (error_body "Unauthorized")), [])
  end.

(** [app.METHOD(path, auth, handler)] *)
Definition route (handler : request -> database -> outcome * database)
    (req : request) (now_ms : Z) (st : database) : run :=
  match auth req now_ms st with
  | (Proceed req', cs) =>
      let '(o, st') := handler req' st in
      {| out := o; store := st'; calls := (cs ++ [CallHandler])%list |}
  | (Stop o, cs) => {| out := o; store := st; calls := cs |}
  end.

(** [GET /playlists] *)
Definition get_playlists (req : request) (st : database) : outcome * database :=
  match req_user req with
  | None => (Rejected no_user, st)
  | Some u =>
      let found := Playlist_findAll (user_id u) st in
      (Sent 200 (JsonArr (map (fun p => JsonObj (attributes ["id"; "name"] (playlist_json p))) found)),
       st)
  end.

(** [include: [{ model: Song, attributes: [...] }]] *)
Definition with_songs (p : playlist) (st : database) : json :=
  JsonObj (attributes ["id"; "name"] (playlist_json p) ++
           [("songs",
             JsonArr (map (fun s => JsonObj (attributes ["id"; "title"; "album"; "artist"] (song_json s)))
                          (List.filter (in_playlist (playlist_id p)) (songs st))))])%list.

(** [GET /playlists/:id] *)
Definition get_playlist (req : request) (st : database) : outcome * database :=
  match req_user req with
  | None => (Rejected no_user, st)
  | Some u =>
      match Playlist_findOne (user_id u) (params_id req) st with
      | None => (Sent 404 (error_body "Not found"), st)
      | Some p => (Sent 200 (with_songs p st), st)
      end
  end.

(** [POST /playlists] *)
Definition post_playlists (req : request) (st : database) : outcome * database :=
  match req_user req with
  | None => (Rejected no_user, st)
  | Some u =>
      match text_value L (prop (body req) "name") with
      | inl e => (Rejected e, st)
      | inr name =>
          match Playlist_create name (user_id u) st with
          | (inl e, st') => (Rejected e, st')
          | (inr p, st') => (Sent 201 (JsonObj (playlist_json p)), st')
          end
      end
  end.

(** [DELETE /playlists/:id] *)
Definition delete_playlist (req : request) (st : database) : outcome * database :=
  match req_user req with
  | None => (Rejected no_user, st)
  | Some u =>
      let '(n, st') := Playlist_destroy (user_id u) (params_id req) st in
      if (n =? 0)%Z then (Sent 404 (error_body "Not found"), st')
      else (Sent 200 (JsonNum n), st')
  end.

(** [POST /playlists/:id/songs] *)
Definition post_songs (req : request) (st : database) : outcome * database :=
  match req_user req with
  | None => (Rejected no_user, st)
  | Some u =>
      match Playlist_findOne (user_id u) (params_id req) st with
      | None => (Sent 422 (error_body "Not found"), st)
      | Some p =>
          match text_value L (prop (body req) "title"),
                text_value L (prop (body req) "artist"),
                text_value L (prop (body req) "album") with
          | inr title, inr artist, inr album =>
              match Song_create title artist album (playlist_id p) st with
              | (inl e, st') => (Rejected e, st')
              | (inr s, st') => (Sent 201 (JsonObj (song_json s)), st')
              end
          | inl e, _, _ | _, inl e, _ | _, _, inl e => (Rejected e, st)
          end
      end
  end.

(** [POST /users]; [random] is what the salt generator draws. *)
Definition post_users (req : request) (random : string) (st : database) : outcome * database :=
  if negb (strict_eq (prop (body req) "password") (prop (body req) "password_confirmation"))
  then (Sent 200 (error_body "Passwords need to match!"), st)
  else
    match hashSync L (prop (body req) "password") random with
    | inl e => (Rejected e, st)
    | inr hash =>
        match text_value L (prop (body req) "email") with
        | inl e => (Rejected e, st)
        | inr email =>
            match User_create email (Some hash) st with
            | (inl e, st') => (Rejected e, st')
            | (inr u, st') =>
                match User_find (user_id u) st' with
                | Some _user => (Sent 201 (JsonObj (attributes ["id"; "email"] (user_json _user))), st')
                | None => (Sent 201 JsonNull, st')
                end
            end
        end
    end.

(** [POST /tokens] *)
Definition post_tokens (req : request) (now_ms : Z) (st : database) : outcome * database :=
  match User_findOne L (prop (body req) "email") st with
  | inl e => (Rejected e, st)
  | inr None => (Sent 401 (error_body "Unauthorized"), st)
  | inr (Some u) =>
      match compareSync L (prop (body req) "password") (user_password u) with
      | inl e => (Rejected e, st)
      | inr false => (Sent 401 (error_body "Unauthorized"), st)
      | inr true =>
          (Sent 200 (JsonObj [("token", JsonStr (toJWT L jwtSecret {| userId := user_id u |} now_ms))]),
           st)
      end
  end.

End Server.

(** ** The routing table *)

(** The seven routes [main] registers. *)
Inductive endpoint :=
  | GetPlaylists      (* app.get('/playlists', auth, ..) *)
  | GetPlaylist       (* app.get('/playlists/:id', auth, ..) *)
  | PostPlaylists     (* app.post('/playlists', auth, ..) *)
  | DeletePlaylist    (* app.delete('/playlists/:id', auth, ..) *)
  | PostSongs         (* app.post('/playlists/:id/songs', auth, ..) *)
  | PostUsers         (* app.post('/users', ..) *)
  | PostTokens.       (* app.post('/tokens', ..) *)

(** A request served by its route: the five playlist routes behind [auth],
    the two account routes directly. *)
Definition serve (L : libs) (jwtSecret : string) (ep : endpoint)
    (req : request) (now_ms : Z) (random : string) (st : database) : run :=
  match ep with
  | GetPlaylists => route L jwtSecret get_playlists req now_ms st
  | GetPlaylist => route L jwtSecret get_playlist req now_ms st
  | PostPlaylists => route L jwtSecret (post_playlists L) req now_ms st
  | DeletePlaylist => route L jwtSecret delete_playlist req now_ms st
  | PostSongs => route L jwtSecret (post_songs L) req now_ms st
  | PostUsers =>
      let '(o, st') := post_users L req random st in
      {| out := o; store := st'; calls := [CallHandler] |}
  | PostTokens =>
      let '(o, st') := post_tokens L jwtSecret req now_ms st in
      {| out := o; store := st'; calls := [CallHandler] |}
  end.

(** ** The route parameter *)

(** [req.params.id] is the text of the URL segment, and the handlers hand
    it to the store as it is.  The store casts it to the 32-bit integer
    type of its keys, and the query fails when the text is not an integer
    or is out of range.  [read_key] is that cast ([None] when the store
    refuses the text); [params_id] of a request is the key it gives. *)
Definition with_id (req : request) (k : Z) : request :=
  {| authorization := authorization req; params_id := k;
     body := body req; req_user := req_user req |}.

Definition unreadable_key : jserror :=
  mkError "SequelizeDatabaseError" "invalid input syntax for type integer".

(** A handler of a route with [:id], run on the text of the segment: the
    where clause is built first ([req.user.id]), then the query is sent. *)
Definition at_id (read_key : string -> option Z) (raw : string)
    (handler : request -> database -> outcome * database)
    (req : request) (st : database) : outcome * database :=
  match req_user req with
  | None => (Rejected no_user, st)
  | Some _ =>
      match read_key raw with
      | Some k => handler (with_id req k) st
      | None => (Rejected unreadable_key, st)
      end
  end.

(** ** Start-up *)

Record config := { database_url : string; token_secret : string }.

Inductive startup :=
  | Exits (code : Z) (stderr : string)     (* console.error(..); process.exit(code) *)
  | Serves (c : config).

(** The two guards at the top of the file, on [process.env]: [DB_PASS]
    first, then, after the connection URL is built, [JWT_SECRET]. *)
Definition start (env : gmap string string) : startup :=
  match env !! "DB_PASS" with
  | None => Exits 1 "DB_PASS environment variable must be set!"
  | Some dbPassword =>
      if String.eqb dbPassword "" then Exits 1 "DB_PASS environment variable must be set!"
      else
        match env !! "JWT_SECRET" with
        | None => Exits 1 "JWT_SECRET environment variable must be set!"
        | Some jwtSecret =>
            if String.eqb jwtSecret "" then Exits 1 "JWT_SECRET environment variable must be set!"
            else Serves {| database_url :=
                             "postgres://postgres:" +:+ dbPassword +:+ "@localhost:5432/spotify";
                           token_secret := jwtSecret |}
        end
  end.

(** ** A small instance of the packages

    Enough of the packages to run the program on sample requests: segments
    are written as [key=value;] texts, the decoder knows the payloads of
    the sample tokens, the signature is the text it signs, and the digest
    of a password keeps the salt in front of it. *)
Module Sample.

Definition show (v : jsval) : string :=
  match v with
  | JUndefined => "u"
  | JNull => "z"
  | JBool b => if b then "t" else "f"
  | JNum n => "n" +:+ pretty n
  | JStr s => "s" +:+ s
  | JObject => "o"
  end.

Definition encode (o : jsobj) : string :=
  foldr (fun kv acc => kv.1 +:+ "=" +:+ show kv.2 +:+ ";" +:+ acc) "" (map_to_list o).

Definition known : list jsobj :=
  [jose_header;
   stamped (claims_obj {| userId := 1 |}) 5000;
   stamped (claims_obj {| userId := 2 |}) 5000;
   stamped (claims_obj {| userId := 7 |}) 5000].

Definition decode (token : string) : jws_decoded :=
  match split_on "."%char token with
  | [h; p; _] =>
      match List.find (fun o => String.eqb (encode o) h) known,
            List.find (fun o => String.eqb (encode o) p) known with
      | Some header, Some payload => Decoded header payload
      | _, _ => NotJws
      end
  | _ => NotJws
  end.

Fixpoint undot (s : string) : string :=
  match s with
  | EmptyString => EmptyString
  | String c r => String (if Ascii.eqb c "."%char then "_"%char else c) (undot r)
  end.

Definition salt_of (s : string) : string :=
  match split_on "#"%char s with h :: _ => h | [] => s end.

Definition lib : libs :=
  {| encode_segment := encode;
     jws_decode := decode;
     jwa_sign := fun alg secret input => undot (alg +:+ ":" +:+ secret +:+ ":" +:+ input);
     verify_algorithms := fun _ => ["HS256"; "HS384"; "HS512"];
     gen_salt := fun rounds random => "$2b$" +:+ pretty rounds +:+ "$" +:+ random;
     bcrypt_hash := fun key salt => salt_of salt +:+ "#" +:+ key;
     validate_salt := fun s => String.prefix "$2b$" s;
     coerce_text := fun _ => None;
   coerce_where := fun _ => None;
     coerce_key := fun _ => None |}.

Definition secret : string := "s3cret".


Definition ann : user :=
  {| user_id := 1; user_email := Some "ann@example.org"; user_password := Some "$2b$10$abc#pw1" |}.
Definition bob : user :=
  {| user_id := 2; user_email := Some "bob@example.org"; user_password := Some "$2b$10$xyz#pw2" |}.

(** Two users, a playlist each, a song each. *)
Definition two_users : database :=
  {| users := [ann; bob]; users_seq := 2;
     playlists := [ {| playlist_id := 1; playlist_name := Some "a"; playlist_userId := Some 1 |};
                    {| playlist_id := 2; playlist_name := Some "b"; playlist_userId := Some 2 |} ];
     playlists_seq := 2;
     songs := [ {| song_id := 1; song_title := Some "t1"; song_artist := None;
                   song_album := None; song_playlistId := Some 1 |};
                {| song_id := 2; song_title := Some "t2"; song_artist := None;
                   song_album := None; song_playlistId := Some 2 |} ];
     songs_seq := 2 |}.

(** The token issued at 5000 ms for a user id. *)
Definition token_of (k : Z) : string := toJWT lib secret {| userId := k |} 5000.

Definition request_with (h : option string) (k : Z) (b : jsobj) : request :=
  {| authorization := h; params_id := k; body := b; req_user := None |}.

Definition bearer (k : Z) : option string := Some ("Bearer " +:+ token_of k).

(** A cast of decimal texts to 32-bit keys. *)
Fixpoint digits (s : string) (acc : Z) : option Z :=
  match s with
  | EmptyString => Some acc
  | String c r =>
      let n := nat_of_ascii c in
      if ((48 <=? n)%nat && (n <=? 57)%nat)%bool
      then digits r (10 * acc + Z.of_nat (n - 48))
      else None
  end.

Definition read_int32 (s : string) : option Z :=
  match s with
  | EmptyString => None
  | _ =>
      match digits s 0 with
      | Some n => if (n <=? max_key)%Z then Some n else None
      | None => None
      end
  end.

End Sample.

(** Sample requests. *)

Definition cy_request : request :=
  Sample.request_with None 0
    {[ "email" := JStr "cy@example.org"; "password" := JStr "pw3";
       "password_confirmation" := JStr "pw3" ]}.




Definition ann_request : request :=
  Sample.request_with (Sample.bearer 1) 2 {[ "title" := JStr "x"; "name" := JStr "mine" ]}.

Definition ann_calls : list call := [CallVerify (Sample.token_of 1); CallFindUser (JNum 1)].

Definition nameless : request :=
  Sample.request_with None 0 {[ "email" := JStr "dee@example.org" ]}.

Definition cy_login : request :=
  Sample.request_with None 0 {[ "email" := JStr "cy@example.org"; "password" := JStr "pw3" ]}.

(** The request [ann_request] for the playlist Ann owns. *)
Definition ann_own : request :=
  Sample.request_with (Sample.bearer 1) 1 {[ "title" := JStr "x"; "name" := JStr "mine" ]}.

(** A request as a handler behind [auth] sees it for user [u] and route parameter [k]. *)
Definition as_user (u : user) (k : Z) : request :=
  {| authorization := None; params_id := k; body := {[ "title" := JStr "x"; "name" := JStr "mine" ]};
     req_user := Some u |}.

(** ** Specification vocabulary *)

(** A header value of the form [Bearer <token>] with a non-empty token. *)
Definition bearer_form (h : string) : Prop := exists tok, tok <> "" /\ h = "Bearer " +:+ tok.

(** What a statement about a freshly signed payload asks of the packages:
    the two segments and the signature hold no dot, the signature is not
    blank, the decoder gives the header and payload back, and HS256 is
    accepted for the key. *)
Definition wire_ok (L : libs) (secret : string) (payload : jsobj) : Prop :=
  let input := signing_input L payload in
  let sig := jwa_sign L "HS256" secret input in
  has_char "."%char (encode_segment L jose_header) = false /\
  has_char "."%char (encode_segment L payload) = false /\
  has_char "."%char sig = false /\
  is_blank sig = false /\
  jws_decode L (input +:+ "." +:+ sig) = Decoded jose_header payload /\
  "HS256" ∈ verify_algorithms L secret.

(** What a statement about a stored hash asks of bcrypt: a hash starts
    with a well-formed salt, and hashing the password under the salt of
    its own hash gives the hash again. *)
Definition bcrypt_ok (L : libs) (password hash : string) : Prop :=
  validate_salt L hash = true /\ bcrypt_hash L password hash = hash.

Definition owns (u : user) (p : playlist) : Prop := playlist_userId p = Some (user_id u).

(** A song reached through a playlist of [u]. *)
Definition through_owned (u : user) (st : database) (s : song) : Prop :=
  exists p, In p (playlists st) /\ owns u p /\ song_playlistId s = Some (playlist_id p).

Definition playlist_brief (p : playlist) : json :=
  JsonObj [("id", JsonNum (playlist_id p)); ("name", json_text (playlist_name p))].

Definition song_brief (s : song) : json :=
  JsonObj [("id", JsonNum (song_id s)); ("title", json_text (song_title s));
           ("album", json_text (song_album s)); ("artist", json_text (song_artist s))].

(** No member of a sent object is called [password]. *)
Definition no_password (o : outcome) : Prop :=
  forall status members, o = Sent status (JsonObj members) -> member "password" members = None.

Definition unauthorized : json := error_body "Unauthorized".

(** [GET /playlists] lists playlists of [u] only. *)
Definition lists_owned (u : user) (st : database) (o : outcome) : Prop :=
  exists ps,
    o = Sent 200 (JsonArr (map playlist_brief ps)) /\
    ps = List.filter (owned_by (user_id u)) (playlists st) /\
    forall p, In p ps -> In p (playlists st) /\ owns u p.

(** [GET /playlists/:id] shows a playlist of [u] with the songs of that
    playlist, or answers 404. *)
Definition shows_owned (u : user) (st : database) (k : Z) (o : outcome) : Prop :=
  o = Sent 404 (error_body "Not found") \/
  exists p ss,
    o = Sent 200 (JsonObj [("id", JsonNum (playlist_id p)); ("name", json_text (playlist_name p));
                           ("songs", JsonArr (map song_brief ss))]) /\
    In p (playlists st) /\ owns u p /\ playlist_id p = k /\
    forall s, In s ss -> In s (songs st) /\ song_playlistId s = Some (playlist_id p).

(** No playlist of another owner leaves the table. *)
Definition keeps_foreign (u : user) (st st' : database) : Prop :=
  forall p, In p (playlists st) -> ~ owns u p -> In p (playlists st').

(** A playlist that enters the table belongs to [u]. *)
Definition adds_only_owned (u : user) (st st' : database) : Prop :=
  forall p, In p (playlists st') -> In p (playlists st) \/ owns u p.

(** A song that enters the table hangs under a playlist of [u]. *)
Definition adds_songs_through_owned (u : user) (st st' : database) : Prop :=
  forall s, In s (songs st') -> In s (songs st) \/ through_owned u st s.

(** A song row changes only if it hangs under a playlist of [u]. *)
Definition touches_songs_through_owned (u : user) (st st' : database) : Prop :=
  forall s, In s (songs st) -> In s (songs st') \/ through_owned u st s.

(** The five protected routes, run on a request that [auth] has let
    through as [req'], stay within what the user attached to [req'] owns. *)
Definition scoped_routes (L : libs) (jwtSecret : string)
    (req : request) (now_ms : Z) (st : database) (req' : request) : Prop :=
  exists u,
    req_user req' = Some u /\ In u (users st) /\
    (let r := route L jwtSecret get_playlists req now_ms st in
     store r = st /\ lists_owned u st (out r)) /\
    (let r := route L jwtSecret get_playlist req now_ms st in
     store r = st /\ shows_owned u st (params_id req) (out r)) /\
    (let r := route L jwtSecret (post_playlists L) req now_ms st in
     (forall p, In p (playlists st) -> In p (playlists (store r))) /\
     adds_only_owned u st (store r) /\ songs (store r) = songs st) /\
    (let r := route L jwtSecret delete_playlist req now_ms st in
     keeps_foreign u st (store r) /\
     (forall p, In p (playlists (store r)) -> In p (playlists st)) /\
     touches_songs_through_owned u st (store r)) /\
    (let r := route L jwtSecret (post_songs L) req now_ms st in
     playlists (store r) = playlists st /\
     (forall s, In s (songs st) -> In s (songs (store r))) /\
     adds_songs_through_owned u st (store r)).

(** The keys of a table are distinct and none is above the sequence. *)
Definition keys_below {A} (key : A -> Z) (rows : list A) (seq : Z) : Prop :=
  NoDup (map key rows) /\ forall r, In r rows -> key r <= seq.

Definition keys_ok (st : database) : Prop :=
  keys_below user_id (users st) (users_seq st) /\
  keys_below playlist_id (playlists st) (playlists_seq st) /\
  keys_below song_id (songs st) (songs_seq st).

(** Every foreign key that is set names a row of the table it refers to. *)
Definition refs_ok (st : database) : Prop :=
  (forall p k, In p (playlists st) -> playlist_userId p = Some k ->
               exists u, In u (users st) /\ user_id u = k) /\
  (forall s k, In s (songs st) -> song_playlistId s = Some k ->
               exists p, In p (playlists st) /\ playlist_id p = k).

Definition store_ok (st : database) : Prop := keys_ok st /\ refs_ok st.

(** The user a request acts as: the one [auth] attaches, if it lets the request through. *)
Definition actor (L : libs) (jwtSecret : string) (req : request) (now_ms : Z) (st : database)
  : option user :=
  match auth L jwtSecret req now_ms st with
  | (Proceed req', _) => req_user req'
  | (Stop _, _) => None
  end.

(** What the two read routes return to [v] is computed from these three
    queries; [same_view] says they give the same on both stores. *)
Definition same_view (v : user) (st st' : database) : Prop :=
  Playlist_findAll (user_id v) st' = Playlist_findAll (user_id v) st /\
  (forall k, Playlist_findOne (user_id v) k st' = Playlist_findOne (user_id v) k st) /\
  (forall p, In p (playlists st) -> owns v p ->
     List.filter (in_playlist (playlist_id p)) (songs st') =
     List.filter (in_playlist (playlist_id p)) (songs st)).

(** Whether a member called [k] occurs anywhere in a JSON value. *)
Fixpoint has_key (k : string) (j : json) : bool :=
  match j with
  | JsonArr items => existsb (has_key k) items
  | JsonObj members => existsb (fun kv => String.eqb kv.1 k || has_key k kv.2) members
  | _ => false
  end.

(** ** Strings *)

Lemma split_on_clean sep s : has_char sep s = false -> split_on sep s = [s].
Proof.
  induction s as [|c r IH]; simpl; [done|].
  destruct (Ascii.eqb c sep); simpl; [done|].
  intros H. by rewrite IH.
Qed.

Lemma split_on_app sep a r :
  has_char sep a = false -> split_on sep (a +:+ String sep r) = a :: split_on sep r.
Proof.
  induction a as [|c a IH]; simpl.
  - by rewrite Ascii.eqb_refl.
  - destruct (Ascii.eqb c sep); simpl; [done|].
    intros H. by rewrite IH.
Qed.

Lemma split_on_head sep s a r : split_on sep s = a :: r -> exists t, s = a +:+ t.
Proof.
  revert a r. induction s as [|c s IH]; simpl; intros a r H.
  - injection H as <- _. by exists "".
  - destruct (Ascii.eqb c sep).
    + injection H as <- _. by exists (String c s).
    + destruct (split_on sep s) as [|h t] eqn:E; injection H as <- _.
      * by exists s.
      * destruct (IH h t eq_refl) as [t' ->]. by exists t'.
Qed.

Lemma split_on_second sep s a b r :
  split_on sep s = a :: b :: r ->
  exists s', s = a +:+ String sep s' /\ split_on sep s' = b :: r.
Proof.
  revert a. induction s as [|c s IH]; simpl; intros a H; [done|].
  destruct (Ascii.eqb c sep) eqn:Ec.
  - apply Ascii.eqb_eq in Ec as ->. injection H as <- H. by exists s.
  - destruct (split_on sep s) as [|h t] eqn:E; [done|].
    injection H as <- ->.
    destruct (IH h eq_refl) as (s' & -> & Hs'). by exists s'.
Qed.

Lemma append_nonempty a b : a <> "" -> a +:+ b <> "".
Proof. by destruct a. Qed.

Lemma append_cons x a b : String x a +:+ b = String x (a +:+ b).
Proof. reflexivity. Qed.

Lemma append_assoc a b c : (a +:+ b) +:+ c = a +:+ b +:+ c.
Proof. induction a as [|x a IH]; [done|]. rewrite !append_cons. by rewrite IH. Qed.

(** What the guard of [auth] lets through is a non-empty token right after [Bearer ]. *)
Lemma bearer_token_form h tok :
  bearer_token (Some h) = Some tok ->
  tok <> "" /\ exists rest, h = "Bearer " +:+ tok +:+ rest.
Proof.
  unfold bearer_token, header_parts.
  destruct (String.eqb h ""); [done|].
  destruct (split_on " "%char h) as [|a0 [|a1 r]] eqn:E; [done..|].
  destruct (String.eqb a0 "Bearer") eqn:E0; [|done].
  destruct (String.eqb a1 "") eqn:E1; [done|]. simpl.
  intros [= <-].
  apply String.eqb_eq in E0 as ->. apply String.eqb_neq in E1.
  split; [done|].
  apply split_on_second in E as (s' & -> & E).
  apply split_on_head in E as [t ->]. by exists t.
Qed.

(** A token without a space, sent as [Bearer <token>], is the token [auth] verifies. *)
Lemma bearer_token_plain tok :
  tok <> "" -> has_char " "%char tok = false ->
  bearer_token (Some ("Bearer " +:+ tok)) = Some tok.
Proof.
  intros Hne Hsp. unfold bearer_token, header_parts.
  change ("Bearer " +:+ tok) with ("Bearer" +:+ String " "%char tok).
  rewrite (split_on_app " "%char "Bearer" tok eq_refl), (split_on_clean _ _ Hsp).
  simpl. by apply String.eqb_neq in Hne as ->.
Qed.

(** ** Table scans *)

Lemma find_absent {A} (f : A -> bool) l :
  (forall x, In x l -> f x = false) -> List.find f l = None.
Proof.
  induction l as [|a l IH]; simpl; intros H; [done|].
  rewrite (H a) by auto. apply IH. auto.
Qed.

Lemma find_appended {A} (f : A -> bool) l a :
  existsb f l = false -> f a = true -> List.find f (l ++ [a])%list = Some a.
Proof.
  induction l as [|b l IH]; simpl; intros H Ha.
  - by rewrite Ha.
  - apply orb_false_iff in H as [-> H]. by apply IH.
Qed.


(** ** Tokens *)

Lemma prop_header_alg : prop jose_header "alg" = JStr "HS256".
Proof. reflexivity. Qed.

Lemma prop_stamped_exp payload now_ms :
  prop (stamped payload now_ms) "exp" = JNum (clock now_ms + two_hours).
Proof. unfold prop, stamped. by rewrite lookup_insert_eq. Qed.

Lemma prop_stamped_iat payload now_ms :
  prop (stamped payload now_ms) "iat" = JNum (clock now_ms).
Proof. unfold prop, stamped. rewrite lookup_insert_ne; [|done]. by rewrite lookup_insert_eq. Qed.

Lemma prop_stamped_other payload now_ms k :
  k <> "exp" -> k <> "iat" -> prop (stamped payload now_ms) k = prop payload k.
Proof. intros ? ?. unfold prop, stamped. by rewrite !lookup_insert_ne. Qed.

Lemma prop_claims_userId data : prop (claims_obj data) "userId" = JNum (userId data).
Proof. unfold prop, claims_obj. by rewrite lookup_singleton_eq. Qed.

Lemma prop_claims_other data k : k <> "userId" -> prop (claims_obj data) k = JUndefined.
Proof. intros ?. unfold prop, claims_obj. by rewrite lookup_singleton_ne. Qed.

(** Verifying what [jwt.sign] has just produced comes down to the time checks. *)
Lemma verify_signed L secret payload now_ms t :
  wire_ok L secret (stamped payload now_ms) ->
  jwt_verify L (jwt_sign L payload secret now_ms) secret t =
  check_times (stamped payload now_ms) t.
Proof.
  intros (Hh & Hp & Hs & Hb & Hd & Ha).
  unfold jwt_verify, jwt_sign. rewrite Hd.
  set (p := stamped payload now_ms) in *.
  set (sig := jwa_sign L "HS256" secret (signing_input L p)) in *.
  assert (Hsplit : split_on "."%char (signing_input L p +:+ "." +:+ sig)
                   = [encode_segment L jose_header; encode_segment L p; sig]).
  { unfold signing_input. rewrite append_assoc.
    change (("." +:+ encode_segment L p) +:+ "." +:+ sig)
      with (String "."%char (encode_segment L p +:+ String "."%char sig)).
    rewrite (split_on_app _ _ _ Hh), (split_on_app _ _ _ Hp).
    by rewrite (split_on_clean _ _ Hs). }
  rewrite Hsplit.
  destruct (String.eqb (signing_input L p +:+ "." +:+ sig) "") eqn:E.
  { apply String.eqb_eq in E. rewrite E in Hsplit. done. }
  rewrite Hb, prop_header_alg, (bool_decide_eq_true_2 _ Ha).
  fold (signing_input L p). fold sig. by rewrite String.eqb_refl.
Qed.

Lemma check_times_claims data now_ms t :
  check_times (stamped (claims_obj data) now_ms) t =
  if (clock now_ms + two_hours <=? clock t)%Z then inl (TokenExpiredError "jwt expired")
  else inr (stamped (claims_obj data) now_ms).
Proof.
  unfold check_times, check_exp.
  rewrite prop_stamped_other, prop_claims_other by done.
  by rewrite prop_stamped_exp.
Qed.

(** The three ways a token fails: it is not three dot-separated parts; its
    signature is not the one the key gives; its expiry has passed (see
    [token_expires] for an issued token). *)
Lemma toData_malformed L secret tok t :
  tok <> "" ->
  length (split_on "."%char tok) <> 3%nat ->
  toData L secret tok t = inl (JsonWebTokenError "jwt malformed").
Proof.
  intros Hne H. unfold toData, jwt_verify.
  apply String.eqb_neq in Hne as ->.
  by destruct (split_on "."%char tok) as [|p0 [|p1 [|p2 [|]]]].
Qed.

Lemma toData_bad_signature L secret tok t p0 p1 p2 header payload alg :
  split_on "."%char tok = [p0; p1; p2] ->
  jws_decode L tok = Decoded header payload ->
  is_blank p2 = false ->
  prop header "alg" = JStr alg ->
  alg ∈ verify_algorithms L secret ->
  p2 <> jwa_sign L alg secret (p0 +:+ "." +:+ p1) ->
  toData L secret tok t = inl (JsonWebTokenError "invalid signature").
Proof.
  intros Hs Hd Hb Ha Hin Hne. unfold toData, jwt_verify.
  destruct (String.eqb tok "") eqn:E.
  { apply String.eqb_eq in E. subst tok. done. }
  rewrite Hs, Hd, Hb, Ha, (bool_decide_eq_true_2 _ Hin).
  by apply String.eqb_neq in Hne as ->.
Qed.

(** ** The middleware *)

Section Middleware.

Variable L : libs.
Variable jwtSecret : string.
Variable handler : request -> database -> outcome * database.

(** C5. A request without an [Authorization] header, or with one that is
    not of the form [Bearer <token>] with a non-empty token, is answered
    401 [{ error: "Unauthorized" }]; nothing is verified, the handler is
    not entered and the store is as it was. *)
Theorem auth_no_bearer_401 req now_ms st :
  (forall h, authorization req = Some h -> ~ bearer_form h) ->
  route L jwtSecret handler req now_ms st =
  {| out := Sent 401 (error_body "Unauthorized"); store := st; calls := [] |}.
Proof.
  intros Hform. unfold route, auth.
  destruct (bearer_token (authorization req)) as [tok|] eqn:E; [|done].
  destruct (authorization req) as [h|] eqn:Eh; [|done].
  apply bearer_token_form in E as (Hne & rest & ->).
  destruct (Hform _ eq_refl). exists (tok +:+ rest).
  split; [by apply append_nonempty | done].
Qed.

(** C4. A request whose bearer token fails verification is answered 400
    with the body [{ error: "Error <name>: <message>" }] of the failure;
    the handler is not entered and no user is looked up. *)
Theorem auth_bad_token_400 req now_ms st tok e :
  bearer_token (authorization req) = Some tok ->
  toData L jwtSecret tok now_ms = inl e ->
  route L jwtSecret handler req now_ms st =
  {| out := Sent 400 (error_body ("Error " +:+ err_name e +:+ ": " +:+ err_message e));
     store := st; calls := [CallVerify tok] |}.
Proof. intros Hb Hv. unfold route, auth. by rewrite Hb, Hv. Qed.

(** C3. A request whose token verifies but names a user id that no user
    has is not let through: [auth] ends with [next('User does not
    exist')], no user is attached, the handler is not entered. *)
Theorem auth_unknown_user req now_ms st tok data k :
  bearer_token (authorization req) = Some tok ->
  toData L jwtSecret tok now_ms = inr data ->
  prop data "userId" = JNum k ->
  (forall u, In u (users st) -> user_id u <> k) ->
  auth L jwtSecret req now_ms st =
    (Stop (NextError (inl "User does not exist")), [CallVerify tok; CallFindUser (JNum k)]) /\
  route L jwtSecret handler req now_ms st =
    {| out := NextError (inl "User does not exist"); store := st;
       calls := [CallVerify tok; CallFindUser (JNum k)] |}.
Proof.
  intros Hb Hv Hk Hno.
  assert (Hfind : User_find k st = None).
  { unfold User_find. apply find_absent. intros u Hu. unfold has_id.
    apply Z.eqb_neq. by apply Hno. }
  unfold route, auth, User_findByPk. rewrite Hb, Hv, Hk. simpl. by rewrite Hfind.
Qed.

End Middleware.

Lemma auth_no_bearer_401_witness :
  route Sample.lib Sample.secret get_playlists
        (Sample.request_with (Some "Basic YW5uOnB3MQ==") 0 ∅) 6000 Sample.two_users =
  {| out := Sent 401 (error_body "Unauthorized"); store := Sample.two_users; calls := [] |}.
Proof.
  apply auth_no_bearer_401.
  intros h [= <-] (tok & _ & H). vm_compute in H. discriminate H.
Defined.

Lemma auth_bad_token_400_witness :
  route Sample.lib Sample.secret get_playlists
        (Sample.request_with (Some "Bearer garbage") 0 ∅) 6000 Sample.two_users =
  {| out := Sent 400 (error_body "Error JsonWebTokenError: jwt malformed");
     store := Sample.two_users; calls := [CallVerify "garbage"] |}.
Proof.
  apply (auth_bad_token_400 Sample.lib Sample.secret get_playlists _ 6000 Sample.two_users
           "garbage" (JsonWebTokenError "jwt malformed")); reflexivity.
Defined.

Lemma auth_unknown_user_witness :
  route Sample.lib Sample.secret get_playlists
        (Sample.request_with (Sample.bearer 7) 0 ∅) 6000 Sample.two_users =
  {| out := NextError (inl "User does not exist"); store := Sample.two_users;
     calls := [CallVerify (Sample.token_of 7); CallFindUser (JNum 7)] |}.
Proof.
  apply (auth_unknown_user Sample.lib Sample.secret get_playlists
           (Sample.request_with (Sample.bearer 7) 0 ∅) 6000 Sample.two_users
           (Sample.token_of 7) (stamped (claims_obj {| userId := 7 |}) 5000) 7).
  - vm_compute. reflexivity.
  - vm_compute. reflexivity.
  - vm_compute. reflexivity.
  - intros u [<- | [<- | []]]; vm_compute; discriminate.
Defined.

(** ** Registration *)

Lemma strict_eq_differs a b : a <> b -> strict_eq a b = false.
Proof.
  destruct a, b; simpl; try done; intros H.
  - destruct b, b0; simpl; congruence.
  - apply Z.eqb_neq. congruence.
  - apply String.eqb_neq. congruence.
Qed.

Section Registration.

Variable L : libs.

(** C6. [POST /users] with a [password] that is not [===] to
    [password_confirmation] answers with the error body under status
    200 (no status is set), and the store is as it was. *)
Theorem register_mismatch req random st :
  strict_eq (prop (body req) "password") (prop (body req) "password_confirmation") = false ->
  post_users L req random st = (Sent 200 (error_body "Passwords need to match!"), st).
Proof. intros H. unfold post_users. by rewrite H. Qed.

(** C7. A registration with matching confirmation that goes through
    answers 201 with exactly the [id] and [email] of the row it has
    appended to the users, whose password column holds the hash, not the
    password; and whatever [POST /users] sends has no [password] member. *)
Theorem register_created req random st o st' :
  post_users L req random st = (o, st') ->
  no_password o /\
  (strict_eq (prop (body req) "password") (prop (body req) "password_confirmation") = true ->
   (forall e, o <> Rejected e) ->
   exists u pw,
     o = Sent 201 (JsonObj [("id", JsonNum (user_id u)); ("email", json_text (user_email u))]) /\
     users st' = (users st ++ [u])%list /\
     user_id u = (users_seq st + 1)%Z /\
     text_value L (prop (body req) "email") = inr (user_email u) /\
     prop (body req) "password" = JStr pw /\
     user_password u = Some (bcrypt_hash L pw (gen_salt L 10 random))).
Proof.
  unfold post_users.
  destruct (strict_eq _ _) eqn:Eq; simpl.
  2:{ intros [= <- <-]. split; [|done]. by intros ? ? [= <- <-]. }
  destruct (hashSync L _ random) as [e|hash] eqn:Eh.
  { intros [= <- <-]. split; [done|]. intros _ H. by destruct (H e). }
  destruct (text_value L _) as [e|email] eqn:Ee.
  { intros [= <- <-]. split; [done|]. intros _ H. by destruct (H e). }
  unfold User_create.
  destruct (max_key <? _)%Z.
  { intros [= <- <-]. split; [done|]. intros _ H. by destruct (H sequence_exhausted). }
  destruct (existsb _ (users st)) eqn:Ex.
  { intros [= <- <-]. split; [done|]. intros _ H. by destruct (H unique_violation). }
  unfold User_find. simpl.
  rewrite (find_appended _ _ _ Ex) by (unfold has_id; simpl; apply Z.eqb_refl).
  intros [= <- <-]. split; [by intros ? ? [= <- <-]|].
  intros _ _.
  destruct (prop (body req) "password") as [| | | |pw|]; simpl in Eh; try done.
  injection Eh as <-.
  exists {| user_id := users_seq st + 1; user_email := email;
            user_password := Some (bcrypt_hash L pw (gen_salt L 10 random)) |}, pw.
  repeat split.
Qed.

End Registration.

Lemma register_mismatch_witness :
  post_users Sample.lib
    (Sample.request_with None 0
       {[ "email" := JStr "cy@example.org"; "password" := JStr "pw3";
          "password_confirmation" := JStr "pw4" ]})
    "r3" Sample.two_users =
  (Sent 200 (error_body "Passwords need to match!"), Sample.two_users).
Proof. apply register_mismatch. vm_compute. reflexivity. Defined.

Lemma register_created_witness :
  no_password (post_users Sample.lib cy_request "r3" Sample.two_users).1 /\
  exists u pw,
    (post_users Sample.lib cy_request "r3" Sample.two_users).1 =
      Sent 201 (JsonObj [("id", JsonNum (user_id u)); ("email", json_text (user_email u))]) /\
    users (post_users Sample.lib cy_request "r3" Sample.two_users).2 =
      (users Sample.two_users ++ [u])%list /\
    user_id u = 3 /\
    text_value Sample.lib (prop (body cy_request) "email") = inr (user_email u) /\
    prop (body cy_request) "password" = JStr pw /\
    user_password u = Some (bcrypt_hash Sample.lib pw (gen_salt Sample.lib 10 "r3")).
Proof.
  destruct (register_created Sample.lib cy_request "r3" Sample.two_users _ _ eq_refl) as [Hno Hok].
  split; [exact Hno|].
  apply Hok; [vm_compute; reflexivity|].
  intros e. vm_compute. discriminate.
Defined.

(** ** Issuing and verifying *)

Lemma sample_wire_ok k :
  k = 1 \/ k = 2 \/ k = 7 ->
  wire_ok Sample.lib Sample.secret (stamped (claims_obj {| userId := k |}) 5000).
Proof.
  intros [-> | [-> | ->]]; repeat split; try (vm_compute; reflexivity);
    apply list_elem_of_In; simpl; auto.
Qed.

Lemma clock_expired e t : e * 1000 <= t -> (e <=? clock t)%Z = true.
Proof.
  intros H. apply Z.leb_le. unfold clock.
  apply Z.div_le_lower_bound; lia.
Qed.

Lemma clock_not_expired e t : t < e * 1000 -> (e <=? clock t)%Z = false.
Proof.
  intros H. apply Z.leb_gt. unfold clock.
  apply Z.div_lt_upper_bound; lia.
Qed.

Lemma expiry_two_hours now_ms :
  now_ms + 7200000 - 1000 < (clock now_ms + two_hours) * 1000 <= now_ms + 7200000.
Proof.
  unfold clock, two_hours.
  pose proof (Z.div_mod now_ms 1000 ltac:(lia)).
  pose proof (Z.mod_pos_bound now_ms 1000 ltac:(lia)). lia.
Qed.

(** Before the expiry, verifying an issued token gives the signed payload. *)
Lemma toData_toJWT L secret data now_ms t :
  wire_ok L secret (stamped (claims_obj data) now_ms) ->
  t < (clock now_ms + two_hours) * 1000 ->
  toData L secret (toJWT L secret data now_ms) t = inr (stamped (claims_obj data) now_ms).
Proof.
  intros Hw Ht. unfold toData, toJWT.
  rewrite (verify_signed _ _ _ _ _ Hw), check_times_claims.
  by rewrite (clock_not_expired _ _ Ht).
Qed.

(** Whatever the packages, as long as they round-trip the signed payload,
    what comes back is not the object that was signed: it has an [exp]. *)
Lemma toData_toJWT_not_claims L secret data now_ms t :
  wire_ok L secret (stamped (claims_obj data) now_ms) ->
  t < (clock now_ms + two_hours) * 1000 ->
  toData L secret (toJWT L secret data now_ms) t <> inr (claims_obj data).
Proof.
  intros Hw Ht. rewrite (toData_toJWT _ _ _ _ _ Hw Ht). intros H.
  apply (f_equal (fun r => match r with inr o => prop o "exp" | inl _ => JUndefined end)) in H.
  rewrite prop_stamped_exp, prop_claims_other in H; done.
Qed.

Section Issuing.

Variable L : libs.
Variable jwtSecret : string.

(** C2, as the program has it.  Before its expiry, a token freshly issued
    for the claims [data] verifies to the claims together with the two
    members the signing added: [iat], the second of issue, and [exp], two
    hours later.  The claims' own member comes back unchanged, and taking
    the two added members away leaves the claims. *)
Theorem verify_issued data now_ms t :
  wire_ok L jwtSecret (stamped (claims_obj data) now_ms) ->
  t < (clock now_ms + two_hours) * 1000 ->
  exists payload,
    toData L jwtSecret (toJWT L jwtSecret data now_ms) t = inr payload /\
    payload = <[ "exp" := JNum (clock now_ms + two_hours) ]>
                (<[ "iat" := JNum (clock now_ms) ]> (claims_obj data)) /\
    prop payload "userId" = JNum (userId data) /\
    delete "iat" (delete "exp" payload) = claims_obj data.
Proof.
  intros Hw Ht. exists (stamped (claims_obj data) now_ms).
  split; [by apply toData_toJWT|]. split; [done|]. split.
  - by rewrite prop_stamped_other, prop_claims_userId.
  - unfold stamped, claims_obj. apply map_eq. intros k.
    destruct (decide (k = "iat")) as [->|Hi]; [by rewrite lookup_delete_eq|].
    rewrite lookup_delete_ne by done.
    destruct (decide (k = "exp")) as [->|He]; [by rewrite lookup_delete_eq|].
    by rewrite lookup_delete_ne, !lookup_insert_ne.
Qed.

(** C8. The payload of an issued token carries [exp], two hours after
    the second of issue [iat] (so within a second of two hours after the
    moment of issue); from that moment on, and so at any later time,
    verifying the token fails with [TokenExpiredError]. *)
Theorem token_expires data now_ms :
  wire_ok L jwtSecret (stamped (claims_obj data) now_ms) ->
  (exists payload,
     jws_decode L (toJWT L jwtSecret data now_ms) = Decoded jose_header payload /\
     prop payload "iat" = JNum (clock now_ms) /\
     prop payload "exp" = JNum (clock now_ms + 7200) /\
     now_ms + 7200000 - 1000 < (clock now_ms + 7200) * 1000 <= now_ms + 7200000) /\
  forall t, (clock now_ms + 7200) * 1000 <= t ->
    toData L jwtSecret (toJWT L jwtSecret data now_ms) t = inl (TokenExpiredError "jwt expired").
Proof.
  intros Hw. split.
  - exists (stamped (claims_obj data) now_ms).
    destruct Hw as (_ & _ & _ & _ & Hd & _).
    split; [exact Hd|]. split; [apply prop_stamped_iat|].
    split; [apply prop_stamped_exp|]. apply expiry_two_hours.
  - intros t Ht. unfold toData, toJWT.
    rewrite (verify_signed _ _ _ _ _ Hw), check_times_claims.
    unfold two_hours. by rewrite (clock_expired _ _ Ht).
Qed.

End Issuing.

(** C2, as stated, fails: the claims [{ userId: 1 }], issued at 5000 ms and
    verified at 6000 ms, well before the expiry, come back with [iat] and
    [exp] added, which is not the object that was signed. *)
Lemma verify_issued_not_identity :
  6000 < (clock 5000 + two_hours) * 1000 /\
  toData Sample.lib Sample.secret
    (toJWT Sample.lib Sample.secret {| userId := 1 |} 5000) 6000 =
  inr (<[ "exp" := JNum 7205 ]> (<[ "iat" := JNum 5 ]> (claims_obj {| userId := 1 |}))) /\
  toData Sample.lib Sample.secret
    (toJWT Sample.lib Sample.secret {| userId := 1 |} 5000) 6000 <>
  inr (claims_obj {| userId := 1 |}).
Proof.
  split; [vm_compute; reflexivity|]. split; [vm_compute; reflexivity|].
  intros H.
  apply (f_equal (fun r => match r with inr o => prop o "exp" | inl _ => JUndefined end)) in H.
  vm_compute in H. discriminate H.
Qed.

Lemma verify_issued_witness :
  exists payload,
    toData Sample.lib Sample.secret (toJWT Sample.lib Sample.secret {| userId := 1 |} 5000) 6000
      = inr payload /\
    payload = <[ "exp" := JNum (clock 5000 + two_hours) ]>
                (<[ "iat" := JNum (clock 5000) ]> (claims_obj {| userId := 1 |})) /\
    prop payload "userId" = JNum 1 /\
    delete "iat" (delete "exp" payload) = claims_obj {| userId := 1 |}.
Proof.
  apply (verify_issued Sample.lib Sample.secret {| userId := 1 |} 5000 6000).
  - apply sample_wire_ok. auto.
  - vm_compute. reflexivity.
Defined.

Lemma token_expires_witness :
  toData Sample.lib Sample.secret (toJWT Sample.lib Sample.secret {| userId := 1 |} 5000) 7205001
  = inl (TokenExpiredError "jwt expired").
Proof.
  apply (token_expires Sample.lib Sample.secret {| userId := 1 |} 5000).
  - apply sample_wire_ok. auto.
  - vm_compute. discriminate.
Defined.

(** ** Login *)

Section Login.

Variable L : libs.
Variable jwtSecret : string.


End Login.



(** ** Ownership scoping *)

Lemma owned_by_owns u p : owned_by (user_id u) p = true <-> owns u p.
Proof. unfold owned_by, owns. apply bool_decide_eq_true. Qed.

Lemma owned_with_id_spec u k p :
  owned_with_id (user_id u) k p = true <-> owns u p /\ playlist_id p = k.
Proof.
  unfold owned_with_id. rewrite andb_true_iff, owned_by_owns, Z.eqb_eq. tauto.
Qed.

Lemma findOne_none u k st :
  (forall p, In p (playlists st) -> ~ (owns u p /\ playlist_id p = k)) ->
  Playlist_findOne (user_id u) k st = None.
Proof.
  intros H. apply find_absent. intros p Hp.
  apply not_true_is_false. rewrite owned_with_id_spec. by apply H.
Qed.

Lemma findOne_some u k st p :
  Playlist_findOne (user_id u) k st = Some p ->
  In p (playlists st) /\ owns u p /\ playlist_id p = k.
Proof.
  intros H. apply find_some in H as [Hin H].
  apply owned_with_id_spec in H. tauto.
Qed.

Lemma destroy_touches u k st :
  touches_songs_through_owned u st (Playlist_destroy (user_id u) k st).2.
Proof.
  intros s Hs. simpl. unfold through_owned.
  destruct (song_playlistId s) as [j|] eqn:Ej.
  - destruct (decide (j ∈ map playlist_id (List.filter (owned_with_id (user_id u) k) (playlists st))))
      as [Hin|Hout].
    + right. apply list_elem_of_In, in_map_iff in Hin as (p & <- & Hp).
      apply filter_In in Hp as [Hp Ho]. apply owned_with_id_spec in Ho as [Ho _].
      by exists p.
    + left. apply in_map_iff. exists s. split; [|done].
      unfold orphan. rewrite Ej. by rewrite bool_decide_eq_false_2.
  - left. apply in_map_iff. exists s. split; [|done].
    unfold orphan. by rewrite Ej.
Qed.

Section Ownership.

Variable L : libs.
Variable jwtSecret : string.

(** What [auth] lets through carries a user of the table, the one whose
    key the verified token names. *)
Lemma auth_proceeds req now_ms st req' cs :
  auth L jwtSecret req now_ms st = (Proceed req', cs) ->
  exists u tok data,
    req' = set_user req u /\ In u (users st) /\
    bearer_token (authorization req) = Some tok /\
    toData L jwtSecret tok now_ms = inr data /\
    key_of L (prop data "userId") = inr (Some (user_id u)).
Proof.
  unfold auth.
  destruct (bearer_token _) as [tok|] eqn:Eb; [|done].
  destruct (toData _ _ _ _) as [e|data] eqn:Ev; [done|].
  unfold User_findByPk.
  destruct (key_of L _) as [e|[k|]] eqn:Ek; [done| |done].
  destruct (User_find k st) as [u|] eqn:Eu; [|done].
  intros [= <- <-]. exists u, tok, data.
  apply find_some in Eu as [Hin Hid]. unfold has_id in Hid.
  apply Z.eqb_eq in Hid. subst k. by repeat split.
Qed.

Lemma route_proceeds handler req now_ms st req' cs :
  auth L jwtSecret req now_ms st = (Proceed req', cs) ->
  route L jwtSecret handler req now_ms st =
  {| out := (handler req' st).1; store := (handler req' st).2;
     calls := (cs ++ [CallHandler])%list |}.
Proof. intros H. unfold route. rewrite H. by destruct (handler req' st). Qed.

Lemma get_playlists_scoped req st u :
  req_user req = Some u ->
  (get_playlists req st).2 = st /\ lists_owned u st (get_playlists req st).1.
Proof.
  intros Hu. unfold get_playlists. rewrite Hu. simpl. split; [done|].
  exists (Playlist_findAll (user_id u) st). split; [done|]. split; [done|].
  intros p Hp. apply filter_In in Hp as [Hp Ho]. by apply owned_by_owns in Ho.
Qed.

Lemma get_playlist_scoped req st u :
  req_user req = Some u ->
  (get_playlist req st).2 = st /\
  shows_owned u st (params_id req) (get_playlist req st).1.
Proof.
  intros Hu. unfold get_playlist. rewrite Hu.
  destruct (Playlist_findOne _ _ st) as [p|] eqn:Ep; simpl; (split; [done|]).
  - right. apply findOne_some in Ep as (Hin & Ho & Hk).
    exists p, (List.filter (in_playlist (playlist_id p)) (songs st)).
    split; [done|]. repeat split; try done.
    + by apply filter_In in H as [? _].
    + apply filter_In in H as [_ H]. by apply bool_decide_eq_true_1 in H.
  - by left.
Qed.

Lemma post_playlists_scoped req st u :
  req_user req = Some u ->
  let st' := (post_playlists L req st).2 in
  (forall p, In p (playlists st) -> In p (playlists st')) /\
  adds_only_owned u st st' /\ songs st' = songs st.
Proof.
  intros Hu. unfold post_playlists, adds_only_owned. rewrite Hu.
  destruct (text_value L _) as [e|name]; simpl; [by auto|].
  unfold Playlist_create.
  destruct (max_key <? _)%Z; simpl; [by auto|].
  destruct (existsb _ (playlists st)); simpl; [by auto|].
  destruct (existsb _ (users st)); simpl; [|by auto].
  split; [|split; [|done]].
  - intros p Hp. apply in_or_app. by left.
  - intros p Hp. apply in_app_or in Hp as [Hp | [<- | []]]; [by left|by right].
Qed.

Lemma delete_playlist_scoped req st u :
  req_user req = Some u ->
  let st' := (delete_playlist req st).2 in
  keeps_foreign u st st' /\
  (forall p, In p (playlists st') -> In p (playlists st)) /\
  touches_songs_through_owned u st st'.
Proof.
  intros Hu. unfold delete_playlist. rewrite Hu.
  pose proof (destroy_touches u (params_id req) st) as Ht.
  destruct (Playlist_destroy (user_id u) (params_id req) st) as [n st1] eqn:Ed.
  assert (Hst : (if (n =? 0)%Z then (Sent 404 (error_body "Not found"), st1)
                 else (Sent 200 (JsonNum n), st1)).2 = st1) by (by destruct (n =? 0)%Z).
  simpl. rewrite Hst. unfold Playlist_destroy in Ed. injection Ed as _ <-.
  split; [|split; [|exact Ht]]; simpl.
  - intros p Hp Hno. apply filter_In. split; [done|].
    apply negb_true_iff, not_true_is_false. rewrite owned_with_id_spec. tauto.
  - intros p Hp. by apply filter_In in Hp as [? _].
Qed.

Lemma post_songs_scoped req st u :
  req_user req = Some u ->
  let st' := (post_songs L req st).2 in
  playlists st' = playlists st /\
  (forall s, In s (songs st) -> In s (songs st')) /\
  adds_songs_through_owned u st st'.
Proof.
  intros Hu. unfold post_songs, adds_songs_through_owned. rewrite Hu.
  destruct (Playlist_findOne _ _ st) as [p|] eqn:Ep; simpl; [|by auto].
  apply findOne_some in Ep as (Hin & Ho & _).
  destruct (text_value L (prop (body req) "title")) as [e|title];
    destruct (text_value L (prop (body req) "artist")) as [e'|artist];
    destruct (text_value L (prop (body req) "album")) as [e''|album];
    simpl; try (by auto).
  unfold Song_create.
  destruct (max_key <? _)%Z; simpl; [by auto|].
  destruct (existsb _ (songs st)); simpl; [by auto|].
  destruct (existsb _ (playlists st)); simpl; [|by auto].
  split; [done|]. split.
  - intros s Hs. apply in_or_app. by left.
  - intros s Hs. apply in_app_or in Hs as [Hs | [<- | []]]; [by left|].
    right. by exists p.
Qed.

(** C1. For a request that [auth] lets through with the user [u] of the
    verified token: the list route returns playlists of [u] only; the
    show route returns a playlist of [u] with the songs under it, or 404;
    creating a playlist adds only a playlist of [u]; deleting removes no
    playlist of another user and changes songs only under playlists of
    [u]; and a song is created only under a playlist of [u]. *)
Theorem handlers_scoped req now_ms st req' cs :
  auth L jwtSecret req now_ms st = (Proceed req', cs) ->
  scoped_routes L jwtSecret req now_ms st req'.
Proof.
  intros Ha. unfold scoped_routes.
  destruct (auth_proceeds _ _ _ _ _ Ha) as (u & _ & _ & Hreq & Hin & _).
  assert (Hu : req_user req' = Some u) by (by rewrite Hreq).
  assert (Hk : params_id req' = params_id req) by (by rewrite Hreq).
  exists u. split; [done|]. split; [done|].
  rewrite !(route_proceeds _ _ _ _ _ _ Ha). simpl. rewrite <- Hk.
  split; [by apply get_playlists_scoped|].
  split; [by apply get_playlist_scoped|].
  split; [by apply post_playlists_scoped|].
  split; [by apply delete_playlist_scoped|].
  by apply post_songs_scoped.
Qed.

Lemma post_songs_422 req st u :
  req_user req = Some u ->
  (forall p, In p (playlists st) -> ~ (owns u p /\ playlist_id p = params_id req)) ->
  post_songs L req st = (Sent 422 (error_body "Not found"), st).
Proof. intros Hu Hno. unfold post_songs. rewrite Hu. by rewrite findOne_none. Qed.

(** C10, as the program has it.  For a request that [auth] lets through,
    [POST /playlists/:id/songs] answers 422 [{ error: 'Not found' }] when
    the store reads the id as a key and the resolved user has no playlist
    with that key; when the store cannot read the id as a key (it is not
    an integer, or is out of range) the query throws and nothing is
    sent.  Either way the tables, the songs among them, are as they were. *)
Theorem post_songs_not_found read_key raw req now_ms st req' cs u :
  auth L jwtSecret req now_ms st = (Proceed req', cs) ->
  req_user req' = Some u ->
  (forall k, read_key raw = Some k ->
     (forall p, In p (playlists st) -> ~ (owns u p /\ playlist_id p = k)) ->
     route L jwtSecret (at_id read_key raw (post_songs L)) req now_ms st =
     {| out := Sent 422 (error_body "Not found"); store := st;
        calls := (cs ++ [CallHandler])%list |}) /\
  (read_key raw = None ->
     route L jwtSecret (at_id read_key raw (post_songs L)) req now_ms st =
     {| out := Rejected unreadable_key; store := st;
        calls := (cs ++ [CallHandler])%list |}).
Proof.
  intros Ha Hu. rewrite (route_proceeds _ _ _ _ _ _ Ha).
  unfold at_id. rewrite Hu. split.
  - intros k Hk Hno. rewrite Hk. by rewrite (post_songs_422 (with_id req' k) st u).
  - by intros ->.
Qed.

End Ownership.

Lemma ann_proceeds :
  auth Sample.lib Sample.secret ann_request 6000 Sample.two_users =
  (Proceed (set_user ann_request Sample.ann), ann_calls).
Proof. vm_compute. reflexivity. Qed.

Lemma handlers_scoped_witness :
  scoped_routes Sample.lib Sample.secret ann_request 6000 Sample.two_users
    (set_user ann_request Sample.ann).
Proof. exact (handlers_scoped _ _ _ _ _ _ _ ann_proceeds). Defined.

Lemma post_songs_not_found_witness :
  route Sample.lib Sample.secret (at_id Sample.read_int32 "2" (post_songs Sample.lib))
    ann_request 6000 Sample.two_users =
  {| out := Sent 422 (error_body "Not found"); store := Sample.two_users;
     calls := [CallVerify (Sample.token_of 1); CallFindUser (JNum 1); CallHandler] |}.
Proof.
  apply (proj1 (post_songs_not_found Sample.lib Sample.secret Sample.read_int32 "2" _ _ _ _ _
                  Sample.ann ann_proceeds eq_refl) 2 eq_refl).
  intros p [<- | [<- | []]] [Ho Hk]; vm_compute in Ho, Hk; discriminate.
Defined.

(** C10, as stated, fails: no playlist has the id [abc], nor the id
    99999999999, yet the answer is not 422: the query throws and nothing
    is sent. *)
Lemma post_songs_unreadable_id :
  route Sample.lib Sample.secret (at_id Sample.read_int32 "abc" (post_songs Sample.lib))
    ann_request 6000 Sample.two_users =
  {| out := Rejected unreadable_key; store := Sample.two_users;
     calls := [CallVerify (Sample.token_of 1); CallFindUser (JNum 1); CallHandler] |} /\
  route Sample.lib Sample.secret (at_id Sample.read_int32 "99999999999" (post_songs Sample.lib))
    ann_request 6000 Sample.two_users =
  {| out := Rejected unreadable_key; store := Sample.two_users;
     calls := [CallVerify (Sample.token_of 1); CallFindUser (JNum 1); CallHandler] |}.
Proof. split; vm_compute; reflexivity. Qed.

(** * Further properties of the program *)

(** ** Start-up *)

(** The process serves only when both [DB_PASS] and [JWT_SECRET] are set
    and non-empty, with the connection URL built from the first and the
    signing key equal to the second; in every other case it exits with
    status 1. *)
Theorem start_guards env :
  (forall c, start env = Serves c <->
     exists d s, env !! "DB_PASS" = Some d /\ d <> "" /\
                 env !! "JWT_SECRET" = Some s /\ s <> "" /\
                 c = {| database_url := "postgres://postgres:" +:+ d +:+ "@localhost:5432/spotify";
                        token_secret := s |}) /\
  (forall code msg, start env = Exits code msg -> code = 1) /\
  (forall c, start env = Serves c -> token_secret c <> "").
Proof.
  unfold start.
  destruct (env !! "DB_PASS") as [d|] eqn:Ed.
  2:{ split; [|split]; [|by intros ? ? [= <- _]|done].
      intros c. split; [done|]. by intros (? & ? & ? & _). }
  destruct (String.eqb d "") eqn:Ede.
  { apply String.eqb_eq in Ede as ->.
    split; [|split]; [|by intros ? ? [= <- _]|done].
    intros c. split; [done|]. by intros (? & ? & [= <-] & ? & _). }
  apply String.eqb_neq in Ede.
  destruct (env !! "JWT_SECRET") as [s|] eqn:Es.
  2:{ split; [|split]; [|by intros ? ? [= <- _]|done].
      intros c. split; [done|]. by intros (? & ? & _ & _ & ? & _). }
  destruct (String.eqb s "") eqn:Ese.
  { apply String.eqb_eq in Ese as ->.
    split; [|split]; [|by intros ? ? [= <- _]|done].
    intros c. split; [done|]. by intros (? & ? & _ & _ & [= <-] & ? & _). }
  apply String.eqb_neq in Ese.
  split; [|split]; [|done|by intros ? [= <-]].
  intros c. split.
  - intros [= <-]. by exists d, s.
  - by intros (? & ? & [= <-] & _ & [= <-] & _ & ->).
Qed.

(** ** The guard of [auth] *)

Lemma split_on_nonempty sep s : split_on sep s <> [].
Proof.
  destruct s as [|c s]; simpl; [done|].
  destruct (Ascii.eqb c sep); [done|]. by destruct (split_on sep s).
Qed.

Lemma split_on_first sep s a r :
  split_on sep s = a :: r ->
  has_char sep a = false /\
  ((r = [] /\ s = a) \/ exists s', s = a +:+ String sep s' /\ split_on sep s' = r).
Proof.
  revert a r. induction s as [|c s IH]; simpl; intros a r H.
  - injection H as <- <-. auto.
  - destruct (Ascii.eqb c sep) eqn:Ec.
    + apply Ascii.eqb_eq in Ec as ->. injection H as <- <-.
      split; [done|]. right. by exists s.
    + destruct (split_on sep s) as [|h t] eqn:E; [by destruct (split_on_nonempty sep s)|].
      injection H as <- <-.
      destruct (IH h t eq_refl) as [Hh Hs]. simpl. rewrite Ec, Hh.
      split; [done|].
      destruct Hs as [[-> ->] | (s' & -> & Hs')]; [by left|].
      right. by exists s'.
Qed.

(** The header values [auth] accepts, and the token it takes from them:
    [Bearer], one space, a non-empty token without a space, and then
    either nothing or a space followed by anything, which is ignored. *)
Theorem bearer_guard h tok :
  bearer_token (Some h) = Some tok <->
  tok <> "" /\ has_char " "%char tok = false /\
  (h = "Bearer " +:+ tok \/ exists rest, h = "Bearer " +:+ tok +:+ " " +:+ rest).
Proof.
  split.
  - unfold bearer_token, header_parts.
    destruct (String.eqb h ""); [done|].
    destruct (split_on " "%char h) as [|a0 [|a1 r]] eqn:E; [done..|].
    destruct (String.eqb a0 "Bearer") eqn:E0; [|done].
    destruct (String.eqb a1 "") eqn:E1; [done|]. simpl.
    intros [= <-].
    apply String.eqb_eq in E0 as ->. apply String.eqb_neq in E1.
    apply split_on_first in E as [_ [[? _] | (s' & -> & E)]]; [done|].
    apply split_on_first in E as [Hsp [[_ ->] | (s'' & -> & _)]].
    + split; [done|]. split; [done|]. by left.
    + split; [done|]. split; [done|]. right. by exists s''.
  - intros (Hne & Hsp & [-> | [rest ->]]); [by apply bearer_token_plain|].
    unfold bearer_token, header_parts.
    change ("Bearer " +:+ tok +:+ " " +:+ rest)
      with ("Bearer" +:+ String " "%char (tok +:+ String " "%char rest)).
    rewrite (split_on_app " "%char "Bearer" _ eq_refl), (split_on_app _ _ _ Hsp).
    simpl. by apply String.eqb_neq in Hne as ->.
Qed.

(** A request is let through exactly when its token verifies and names
    the key of a row of the users table; the user attached is the first
    such row, and nothing else of the request changes. *)
Theorem auth_lets_through L jwtSecret req now_ms st req' cs :
  auth L jwtSecret req now_ms st = (Proceed req', cs) <->
  exists tok data k u,
    bearer_token (authorization req) = Some tok /\
    toData L jwtSecret tok now_ms = inr data /\
    key_of L (prop data "userId") = inr (Some k) /\
    User_find k st = Some u /\
    req' = set_user req u /\
    cs = [CallVerify tok; CallFindUser (prop data "userId")].
Proof.
  unfold auth, User_findByPk. split.
  - destruct (bearer_token _) as [tok|] eqn:Eb; [|done].
    destruct (toData _ _ _ _) as [e|data] eqn:Ev; [done|].
    destruct (key_of L _) as [e|[k|]] eqn:Ek; [done| |done].
    destruct (User_find k st) as [u|] eqn:Eu; [|done].
    intros [= <- <-]. by exists tok, data, k, u.
  - intros (tok & data & k & u & -> & -> & Hk & Hu & -> & ->).
    by rewrite Hk, Hu.
Qed.

(** ** Tokens that do not verify *)

Lemma split_signed L secret payload now_ms :
  wire_ok L secret (stamped payload now_ms) ->
  split_on "."%char (jwt_sign L payload secret now_ms) =
  [encode_segment L jose_header; encode_segment L (stamped payload now_ms);
   jwa_sign L "HS256" secret (signing_input L (stamped payload now_ms))].
Proof.
  intros (Hh & Hp & Hs & _). unfold jwt_sign.
  set (p := stamped payload now_ms) in *.
  set (sig := jwa_sign L "HS256" secret (signing_input L p)) in *.
  unfold signing_input. rewrite append_assoc.
  change (("." +:+ encode_segment L p) +:+ "." +:+ sig)
    with (String "."%char (encode_segment L p +:+ String "."%char sig)).
  rewrite (split_on_app _ _ _ Hh), (split_on_app _ _ _ Hp).
  by rewrite (split_on_clean _ _ Hs).
Qed.

Section Rejected.

Variable L : libs.
Variable handler : request -> database -> outcome * database.

(** A token issued under another key, whose HMAC differs from the one the
    server's key gives, is answered 400 with [invalid signature]; no user
    is looked up and the handler is not entered. *)
Theorem other_key_400 (issuer jwtSecret : string) data issued req now_ms st :
  wire_ok L issuer (stamped (claims_obj data) issued) ->
  "HS256" ∈ verify_algorithms L jwtSecret ->
  jwa_sign L "HS256" issuer (signing_input L (stamped (claims_obj data) issued)) <>
  jwa_sign L "HS256" jwtSecret (signing_input L (stamped (claims_obj data) issued)) ->
  bearer_token (authorization req) = Some (toJWT L issuer data issued) ->
  route L jwtSecret handler req now_ms st =
  {| out := Sent 400 (error_body "Error JsonWebTokenError: invalid signature");
     store := st; calls := [CallVerify (toJWT L issuer data issued)] |}.
Proof.
  intros Hw Halg Hne Hb.
  assert (Hv : toData L jwtSecret (toJWT L issuer data issued) now_ms =
               inl (JsonWebTokenError "invalid signature")).
  { pose proof (split_signed _ _ _ _ Hw) as Hs.
    destruct Hw as (_ & _ & _ & Hbl & Hd & _).
    unfold toJWT. eapply toData_bad_signature; eauto. }
  unfold route, auth. by rewrite Hb, Hv.
Qed.

(** A bearer token that is not three dot-separated parts is answered 400
    with [jwt malformed], whatever the packages' coding is. *)
Theorem garbage_token_400 jwtSecret req now_ms st tok :
  authorization req = Some ("Bearer " +:+ tok) ->
  tok <> "" -> has_char " "%char tok = false ->
  length (split_on "."%char tok) <> 3%nat ->
  route L jwtSecret handler req now_ms st =
  {| out := Sent 400 (error_body "Error JsonWebTokenError: jwt malformed");
     store := st; calls := [CallVerify tok] |}.
Proof.
  intros Hh Hne Hsp Hparts. unfold route, auth.
  rewrite Hh, (bearer_token_plain _ Hne Hsp), (toData_malformed _ _ _ _ Hne Hparts). done.
Qed.

End Rejected.

Lemma other_key_400_witness :
  route Sample.lib Sample.secret get_playlists
    (Sample.request_with (Some ("Bearer " +:+ toJWT Sample.lib "0ther" {| userId := 1 |} 5000)) 0 ∅)
    6000 Sample.two_users =
  {| out := Sent 400 (error_body "Error JsonWebTokenError: invalid signature");
     store := Sample.two_users;
     calls := [CallVerify (toJWT Sample.lib "0ther" {| userId := 1 |} 5000)] |}.
Proof.
  apply (other_key_400 Sample.lib get_playlists "0ther" Sample.secret {| userId := 1 |} 5000).
  - repeat split; try (vm_compute; reflexivity). apply list_elem_of_In; simpl; auto.
  - apply list_elem_of_In; simpl; auto.
  - vm_compute. discriminate.
  - vm_compute. reflexivity.
Defined.

Lemma garbage_token_400_witness :
  route Sample.lib Sample.secret get_playlists
    (Sample.request_with (Some "Bearer not.a-token") 0 ∅) 6000 Sample.two_users =
  {| out := Sent 400 (error_body "Error JsonWebTokenError: jwt malformed");
     store := Sample.two_users; calls := [CallVerify "not.a-token"] |}.
Proof.
  apply (garbage_token_400 Sample.lib get_playlists Sample.secret _ 6000 Sample.two_users
           "not.a-token"); [reflexivity | discriminate | reflexivity | vm_compute; discriminate].
Defined.

(** ** Accounts *)

Lemma keys_below_fresh {A} (key : A -> Z) rows seq :
  keys_below key rows seq -> existsb (fun r => (key r =? seq + 1)%Z) rows = false.
Proof.
  intros [_ Hle]. apply not_true_is_false. intros H.
  apply existsb_exists in H as (r & Hr & He).
  apply Z.eqb_eq in He. specialize (Hle r Hr). lia.
Qed.

(** What a 201 from [POST /users] tells about the request and the store. *)
Lemma post_users_201 L req random st b st' :
  post_users L req random st = (Sent 201 b, st') ->
  exists pw email,
    prop (body req) "password" = JStr pw /\
    text_value L (prop (body req) "email") = inr email /\
    existsb (has_id (users_seq st + 1)) (users st) = false /\
    st' = {| users := (users st ++ [ {| user_id := users_seq st + 1; user_email := email;
                                         user_password :=
                                           Some (bcrypt_hash L pw (gen_salt L 10 random)) |} ])%list;
             users_seq := users_seq st + 1; playlists := playlists st;
             playlists_seq := playlists_seq st; songs := songs st; songs_seq := songs_seq st |}.
Proof.
  unfold post_users.
  destruct (strict_eq _ _); simpl; [|done].
  destruct (prop (body req) "password") as [| | | |pw|]; simpl; try done.
  destruct (text_value L _) as [e|email]; [done|].
  unfold User_create.
  destruct (max_key <? _)%Z; [done|].
  destruct (existsb _ (users st)) eqn:Ex; [done|].
  destruct (User_find _ _); intros [= _ <-]; by exists pw, email.
Qed.

Section Accounts.

Variable L : libs.
Variable jwtSecret : string.

(** [POST /users] creates a user only for a password that is a string: a
    request whose password is missing or is any other value either gets
    the mismatch answer or makes the handler throw in the hashing, and the
    store is as it was. *)
Theorem register_needs_string req random st :
  (forall s, prop (body req) "password" <> JStr s) ->
  (post_users L req random st).2 = st /\
  (forall status b, (post_users L req random st).1 = Sent status b ->
     status = 200 /\ b = error_body "Passwords need to match!") /\
  (prop (body req) "password" = prop (body req) "password_confirmation" ->
   prop (body req) "password" <> JObject ->
   exists e, (post_users L req random st).1 = Rejected e).
Proof.
  intros Hns. unfold post_users.
  destruct (prop (body req) "password") as [| |b|n|s|] eqn:Ep;
    try (by destruct (Hns s));
    destruct (prop (body req) "password_confirmation") as [| |b'|n'|s'|]; simpl;
    try (split; [done|]; split; [by intros ? ? [= <- <-]|]; done);
    try (split; [done|]; split; [done|]; intros; by eexists).
  - destruct (Bool.eqb b b') eqn:E; simpl.
    + split; [done|]. split; [done|]. intros; by eexists.
    + split; [done|]. split; [by intros ? ? [= <- <-]|].
      intros [= ->]. by rewrite Bool.eqb_reflx in E.
  - destruct (n =? n')%Z eqn:E; simpl.
    + split; [done|]. split; [done|]. intros; by eexists.
    + split; [done|]. split; [by intros ? ? [= <- <-]|].
      intros [= ->]. by rewrite Z.eqb_refl in E.
Qed.

(** [POST /tokens] never writes to the store, and it sends a token only
    for the first user with the given email, only after the given password
    has verified against that user's stored hash; the token is issued for
    that user's id.  Every other answer it sends is the 401. *)
Theorem token_only_after_compare req now_ms st :
  (post_tokens L jwtSecret req now_ms st).2 = st /\
  forall status b, (post_tokens L jwtSecret req now_ms st).1 = Sent status b ->
    (status = 401 /\ b = unauthorized) \/
    (status = 200 /\
     exists u pw hash,
       User_findOne L (prop (body req) "email") st = inr (Some u) /\
       prop (body req) "password" = JStr pw /\
       user_password u = Some hash /\
       validate_salt L hash = true /\ bcrypt_hash L pw hash = hash /\
       b = JsonObj [("token", JsonStr (toJWT L jwtSecret {| userId := user_id u |} now_ms))]).
Proof.
  unfold post_tokens.
  destruct (User_findOne L _ st) as [e|[u|]] eqn:Ef; simpl; [done| |].
  2:{ split; [done|]. intros ? ? [= <- <-]. by left. }
  unfold compareSync.
  destruct (prop (body req) "password") as [| | | |pw|] eqn:Ep;
    destruct (user_password u) as [hash|] eqn:Eh; simpl; try done.
  destruct (validate_salt L hash) eqn:Es; simpl.
  2:{ split; [done|]. intros ? ? [= <- <-]. by left. }
  destruct (String.eqb (bcrypt_hash L pw hash) hash) eqn:Ec; simpl.
  2:{ split; [done|]. intros ? ? [= <- <-]. by left. }
  apply String.eqb_eq in Ec.
  split; [done|]. intros ? ? [= <- <-]. right. split; [done|].
  by exists u, pw, hash.
Qed.

(** Registering and then logging in.  After [POST /users] has answered
    201 for an email no user had before (as the store holds it, a NUL
    written as backslash-0), [POST /tokens] with that email
    and the same password answers 200 with a token issued for the new
    user's id, the next key of the sequence. *)
Theorem register_then_login reg random st b st' e login now_ms :
  post_users L reg random st = (Sent 201 b, st') ->
  prop (body reg) "email" = JStr e ->
  (forall v, In v (users st) -> user_email v <> Some (escape_nul e)) ->
  (forall pw, prop (body reg) "password" = JStr pw ->
              bcrypt_ok L pw (bcrypt_hash L pw (gen_salt L 10 random))) ->
  prop (body login) "email" = JStr e ->
  prop (body login) "password" = prop (body reg) "password" ->
  post_tokens L jwtSecret login now_ms st' =
  (Sent 200 (JsonObj [("token",
                       JsonStr (toJWT L jwtSecret {| userId := users_seq st + 1 |} now_ms))]),
   st').
Proof.
  intros Hreg He Hnew Hb Hle Hlp.
  apply post_users_201 in Hreg as (pw & email & Hpw & Hemail & _ & ->).
  rewrite He in Hemail. injection Hemail as <-.
  destruct (Hb pw Hpw) as [Hsalt Hhash].
  unfold post_tokens, User_findOne. rewrite Hle, Hlp, Hpw. simpl.
  rewrite find_appended.
  - simpl. by rewrite Hsalt, Hhash, String.eqb_refl.
  - apply not_true_is_false. intros H. apply existsb_exists in H as (v & Hv & Hve).
    unfold has_email in Hve. apply bool_decide_eq_true_1 in Hve. by destruct (Hnew v Hv).
  - unfold has_email. by apply bool_decide_eq_true_2.
Qed.

(** On a store whose keys are below their sequences, with the users'
    sequence not yet at the last key of the column, a registration with a
    string password, the same confirmation and an email the store takes
    always answers 201 with the next key and the email as the store holds
    it, and adds exactly that user with the hash of the password. *)
Theorem registration_succeeds req random st pw email :
  keys_ok st ->
  users_seq st < max_key ->
  prop (body req) "password" = JStr pw ->
  prop (body req) "password_confirmation" = JStr pw ->
  text_value L (prop (body req) "email") = inr email ->
  post_users L req random st =
  (Sent 201 (JsonObj [("id", JsonNum (users_seq st + 1)); ("email", json_text email)]),
   {| users := (users st ++ [ {| user_id := users_seq st + 1; user_email := email;
                                 user_password :=
                                   Some (bcrypt_hash L pw (gen_salt L 10 random)) |} ])%list;
      users_seq := users_seq st + 1; playlists := playlists st;
      playlists_seq := playlists_seq st; songs := songs st; songs_seq := songs_seq st |}).
Proof.
  intros (Hk & _ & _) Hmax Hp Hc He. apply keys_below_fresh in Hk.
  unfold post_users. rewrite Hp, Hc, He. simpl. rewrite String.eqb_refl. simpl.
  unfold User_create, has_id. rewrite (proj2 (Z.ltb_ge _ _)) by lia. rewrite Hk.
  unfold User_find. simpl. rewrite find_appended; [done|exact Hk|].
  unfold has_id. simpl. apply Z.eqb_refl.
Qed.

End Accounts.

(** ** The store stays well formed *)

Lemma keys_below_append {A} (key : A -> Z) rows seq r :
  keys_below key rows seq -> key r = seq + 1 ->
  keys_below key (rows ++ [r])%list (seq + 1).
Proof.
  intros [Hnd Hle] Hr. split.
  - rewrite map_app. apply NoDup_app. split; [done|]. split.
    + intros x Hx Hx'. apply list_elem_of_In, in_map_iff in Hx as (r' & <- & Hr').
      apply list_elem_of_In in Hx'. simpl in Hx'. destruct Hx' as [Hx'|[]].
      specialize (Hle r' Hr'). lia.
    + simpl. apply NoDup_singleton.
  - intros r' Hr'. apply in_app_or in Hr' as [Hr' | [<- | []]]; [|lia].
    specialize (Hle r' Hr'). lia.
Qed.

Lemma keys_below_advance {A} (key : A -> Z) rows seq :
  keys_below key rows seq -> keys_below key rows (seq + 1).
Proof. intros [Hnd Hle]. split; [done|]. intros r Hr. specialize (Hle r Hr). lia. Qed.

Lemma keys_below_filter {A} (key : A -> Z) (f : A -> bool) rows seq :
  keys_below key rows seq -> keys_below key (List.filter f rows) seq.
Proof.
  intros [Hnd Hle]. split.
  - clear Hle. induction rows as [|r rows IH]; simpl; [done|].
    simpl in Hnd. apply NoDup_cons in Hnd as [Hnotin Hnd].
    destruct (f r); simpl; [|by apply IH].
    apply NoDup_cons. split; [|by apply IH].
    intros Hin. apply Hnotin. apply list_elem_of_In.
    apply list_elem_of_In, in_map_iff in Hin as (r' & <- & Hr').
    apply in_map. by apply filter_In in Hr' as [? _].
  - intros r Hr. apply filter_In in Hr as [Hr _]. by apply Hle.
Qed.

Lemma orphan_id gone s : song_id (orphan gone s) = song_id s.
Proof. unfold orphan. destruct (song_playlistId s); [|done]. by case_bool_decide. Qed.

Lemma keys_below_orphan gone rows seq :
  keys_below song_id rows seq -> keys_below song_id (map (orphan gone) rows) seq.
Proof.
  intros [Hnd Hle]. split.
  - rewrite map_map. by rewrite (map_ext _ song_id (orphan_id gone)).
  - intros r Hr. apply in_map_iff in Hr as (s & <- & Hs). rewrite orphan_id. by apply Hle.
Qed.

Lemma post_users_keeps L req random st :
  store_ok st -> store_ok (post_users L req random st).2.
Proof.
  intros Hok. pose proof Hok as [(Hu & Hp & Hs) [Hr1 Hr2]]. unfold post_users.
  destruct (strict_eq _ _); simpl; [|done].
  destruct (hashSync L _ random); [done|].
  destruct (text_value L _); [done|].
  unfold User_create.
  destruct (max_key <? _)%Z; simpl; [exact Hok|].
  destruct (existsb _ (users st)); simpl.
  - split; [|done]. split; [|done]. by apply keys_below_advance.
  - destruct (User_find _ _); simpl.
    all: split; [split; [by apply keys_below_append|done]|].
    all: split; [|done]; intros p k Hin Hk; simpl;
      destruct (Hr1 p k Hin Hk) as (v & Hv & <-); exists v; split; [|done];
      apply in_or_app; by left.
Qed.

Lemma post_playlists_keeps L req st :
  store_ok st -> store_ok (post_playlists L req st).2.
Proof.
  intros Hok. pose proof Hok as [(Hu & Hp & Hs) [Hr1 Hr2]]. unfold post_playlists.
  destruct (req_user req) as [u|]; [|done].
  destruct (text_value L _) as [e|name]; [done|].
  unfold Playlist_create.
  destruct (max_key <? _)%Z; simpl; [exact Hok|].
  destruct (existsb _ (playlists st)); simpl.
  { split; [|done]. split; [done|]. split; [|done]. by apply keys_below_advance. }
  destruct (existsb (has_id (user_id u)) (users st)) eqn:Ex; simpl.
  2:{ split; [|done]. split; [done|]. split; [|done]. by apply keys_below_advance. }
  split.
  - split; [done|]. split; [|done]. by apply keys_below_append.
  - split; simpl.
    + intros p k Hin Hk. apply in_app_or in Hin as [Hin | [<- | []]]; [by eapply Hr1|].
      simpl in Hk. injection Hk as <-.
      apply existsb_exists in Ex as (v & Hv & Hid). apply Z.eqb_eq in Hid. by exists v.
    + intros s k Hin Hk. destruct (Hr2 s k Hin Hk) as (p & Hp' & <-).
      exists p. split; [|done]. apply in_or_app. by left.
Qed.

Lemma post_songs_keeps L req st :
  store_ok st -> store_ok (post_songs L req st).2.
Proof.
  intros Hok. pose proof Hok as [(Hu & Hp & Hs) [Hr1 Hr2]]. unfold post_songs.
  destruct (req_user req) as [u|]; [|done].
  destruct (Playlist_findOne _ _ st) as [p|]; [|done].
  destruct (text_value L (prop (body req) "title")) as [e|title];
    destruct (text_value L (prop (body req) "artist")) as [e'|artist];
    destruct (text_value L (prop (body req) "album")) as [e''|album]; try done.
  unfold Song_create.
  destruct (max_key <? _)%Z; simpl; [exact Hok|].
  destruct (existsb _ (songs st)); simpl.
  { split; [|done]. split; [done|]. split; [done|]. by apply keys_below_advance. }
  destruct (existsb _ (playlists st)) eqn:Ex; simpl.
  2:{ split; [|done]. split; [done|]. split; [done|]. by apply keys_below_advance. }
  split.
  - split; [done|]. split; [done|]. by apply keys_below_append.
  - split; simpl; [done|].
    intros s k Hin Hk. apply in_app_or in Hin as [Hin | [<- | []]]; [by eapply Hr2|].
    simpl in Hk. injection Hk as <-.
    apply existsb_exists in Ex as (q & Hq & Hid). apply Z.eqb_eq in Hid. by exists q.
Qed.

Lemma destroy_keeps uid k st :
  store_ok st -> store_ok (Playlist_destroy uid k st).2.
Proof.
  intros [(Hu & Hp & Hs) [Hr1 Hr2]]. unfold Playlist_destroy. simpl. split.
  - split; [done|]. split; [by apply keys_below_filter | by apply keys_below_orphan].
  - split; simpl.
    + intros p j Hin Hj. apply filter_In in Hin as [Hin _]. by eapply Hr1.
    + intros s' j Hin Hj. apply in_map_iff in Hin as (s & <- & Hs').
      unfold orphan in Hj.
      destruct (song_playlistId s) as [i|] eqn:Ei; [|by rewrite Ei in Hj].
      case_bool_decide as Hgone; [done|]. rewrite Ei in Hj. injection Hj as <-.
      destruct (Hr2 s i Hs' Ei) as (p & Hp' & Hid). exists p. split; [|done].
      apply filter_In. split; [done|].
      apply negb_true_iff, not_true_is_false. intros Ho. apply Hgone.
      apply list_elem_of_In, in_map_iff. exists p. split; [done|]. by apply filter_In.
Qed.

Lemma delete_playlist_keeps req st :
  store_ok st -> store_ok (delete_playlist req st).2.
Proof.
  intros Hok. unfold delete_playlist.
  destruct (req_user req) as [u|]; [|done].
  pose proof (destroy_keeps (user_id u) (params_id req) st Hok) as H.
  destruct (Playlist_destroy _ _ st) as [n st1]. simpl in H.
  by destruct (n =? 0)%Z.
Qed.

Lemma post_tokens_store L jwtSecret req now_ms st :
  (post_tokens L jwtSecret req now_ms st).2 = st.
Proof.
  unfold post_tokens.
  destruct (User_findOne L _ st) as [e|[u|]]; [done| |done].
  by destruct (compareSync L _ _) as [e|[|]].
Qed.

Lemma route_store L jwtSecret handler req now_ms st :
  store (route L jwtSecret handler req now_ms st) = st \/
  exists req', store (route L jwtSecret handler req now_ms st) = (handler req' st).2.
Proof.
  unfold route. destruct (auth _ _ _ _ _) as [[req'|o] cs]; [|by left].
  right. exists req'. by destruct (handler req' st).
Qed.

(** Whatever request any of the seven routes serves, a store whose keys
    are distinct and below their sequences, and whose foreign keys name
    existing rows, is left in such a state. *)
Theorem serve_keeps_store_ok L jwtSecret ep req now_ms random st :
  store_ok st -> store_ok (store (serve L jwtSecret ep req now_ms random st)).
Proof.
  intros Hok. destruct ep; simpl.
  - destruct (route_store L jwtSecret get_playlists req now_ms st) as [-> | [req' ->]]; [done|].
    unfold get_playlists. by destruct (req_user req').
  - destruct (route_store L jwtSecret get_playlist req now_ms st) as [-> | [req' ->]]; [done|].
    unfold get_playlist. destruct (req_user req'); [|done].
    by destruct (Playlist_findOne _ _ _).
  - destruct (route_store L jwtSecret (post_playlists L) req now_ms st) as [-> | [req' ->]];
      [done | by apply post_playlists_keeps].
  - destruct (route_store L jwtSecret delete_playlist req now_ms st) as [-> | [req' ->]];
      [done | by apply delete_playlist_keeps].
  - destruct (route_store L jwtSecret (post_songs L) req now_ms st) as [-> | [req' ->]];
      [done | by apply post_songs_keeps].
  - pose proof (post_users_keeps L req random st Hok) as H.
    by destruct (post_users L req random st).
  - pose proof (post_tokens_store L jwtSecret req now_ms st) as H.
    destruct (post_tokens L jwtSecret req now_ms st). simpl in *. by subst.
Qed.

(** ** Playlists and songs *)

Lemma find_filter_none {A} (f : A -> bool) l :
  List.find f l = None -> List.filter f l = [] /\ List.filter (fun x => negb (f x)) l = l.
Proof.
  induction l as [|a l IH]; simpl; [done|].
  destruct (f a); [done|]. intros H. destruct (IH H) as [-> ->]. done.
Qed.

Lemma find_filter_some {A} (f : A -> bool) l a :
  List.find f l = Some a -> (1 <= length (List.filter f l))%nat.
Proof.
  induction l as [|b l IH]; simpl; [done|].
  destruct (f b); simpl; [lia|]. apply IH.
Qed.

Lemma find_after_filter {A} (f : A -> bool) l :
  List.find f (List.filter (fun x => negb (f x)) l) = None.
Proof.
  apply find_absent. intros x Hx. apply filter_In in Hx as [_ Hx].
  by apply negb_true_iff in Hx.
Qed.

Lemma orphan_nil s : orphan [] s = s.
Proof. unfold orphan. destruct (song_playlistId s); [|done]. by rewrite bool_decide_eq_false_2 by set_solver. Qed.

Lemma find_app_miss {A} (f : A -> bool) l a :
  f a = false -> List.find f (l ++ [a])%list = List.find f l.
Proof.
  intros Ha. induction l as [|b l IH]; simpl; [by rewrite Ha|].
  by destruct (f b).
Qed.

Lemma find_app_hit {A} (f : A -> bool) l a b :
  List.find f l = Some b -> List.find f (l ++ [a])%list = Some b.
Proof.
  induction l as [|c l IH]; simpl; [done|]. by destruct (f c).
Qed.

Lemma filter_app_one {A} (f : A -> bool) l a :
  List.filter f (l ++ [a])%list = (List.filter f l ++ if f a then [a] else [])%list.
Proof. rewrite List.filter_app. simpl. by destruct (f a). Qed.

(** What a 201 from [POST /playlists] and from [POST /playlists/:id/songs] tells. *)
Lemma post_playlists_201 L req st b st' u :
  req_user req = Some u ->
  post_playlists L req st = (Sent 201 b, st') ->
  exists name,
    let row := {| playlist_id := playlists_seq st + 1; playlist_name := name;
                  playlist_userId := Some (user_id u) |} in
    text_value L (prop (body req) "name") = inr name /\
    existsb (fun p => (playlist_id p =? playlists_seq st + 1)%Z) (playlists st) = false /\
    b = JsonObj (playlist_json row) /\
    st' = {| users := users st; users_seq := users_seq st;
             playlists := (playlists st ++ [row])%list; playlists_seq := playlists_seq st + 1;
             songs := songs st; songs_seq := songs_seq st |}.
Proof.
  intros Hu. unfold post_playlists. rewrite Hu.
  destruct (text_value L _) as [e|name]; [done|].
  unfold Playlist_create.
  destruct (max_key <? _)%Z; [done|].
  destruct (existsb _ (playlists st)) eqn:Ex; [done|].
  destruct (existsb _ (users st)); [|done].
  intros [= <- <-]. by exists name.
Qed.

Lemma post_songs_201 L req st b st' u :
  req_user req = Some u ->
  post_songs L req st = (Sent 201 b, st') ->
  exists p title artist album,
    let row := {| song_id := songs_seq st + 1; song_title := title; song_artist := artist;
                  song_album := album; song_playlistId := Some (playlist_id p) |} in
    Playlist_findOne (user_id u) (params_id req) st = Some p /\
    b = JsonObj (song_json row) /\
    st' = {| users := users st; users_seq := users_seq st;
             playlists := playlists st; playlists_seq := playlists_seq st;
             songs := (songs st ++ [row])%list; songs_seq := songs_seq st + 1 |}.
Proof.
  intros Hu. unfold post_songs. rewrite Hu.
  destruct (Playlist_findOne _ _ st) as [p|] eqn:Ep; [|done].
  destruct (text_value L (prop (body req) "title")) as [e|title];
    destruct (text_value L (prop (body req) "artist")) as [e'|artist];
    destruct (text_value L (prop (body req) "album")) as [e''|album]; try done.
  unfold Song_create.
  destruct (max_key <? _)%Z; [done|].
  destruct (existsb _ (songs st)); [done|].
  destruct (existsb _ (playlists st)); [|done].
  intros [= <- <-]. by exists p, title, artist, album.
Qed.

Section Playlists.

Variable L : libs.
Variable jwtSecret : string.

(** For a request [auth] lets through, on a store whose keys are below
    their sequences, with the playlists' sequence not yet at the last key
    of the column, [POST /playlists] with a name the store takes always
    answers 201 with the new row: the next key, the name as the store
    holds it, and the id of the authenticated user as owner. *)
Theorem create_playlist_succeeds req now_ms st req' cs name :
  auth L jwtSecret req now_ms st = (Proceed req', cs) ->
  keys_ok st ->
  playlists_seq st < max_key ->
  text_value L (prop (body req) "name") = inr name ->
  exists u,
    req_user req' = Some u /\
    route L jwtSecret (post_playlists L) req now_ms st =
    {| out := Sent 201 (JsonObj [("id", JsonNum (playlists_seq st + 1)); ("name", json_text name);
                                 ("userId", JsonNum (user_id u))]);
       store := {| users := users st; users_seq := users_seq st;
                   playlists := (playlists st ++
                                 [ {| playlist_id := playlists_seq st + 1; playlist_name := name;
                                      playlist_userId := Some (user_id u) |} ])%list;
                   playlists_seq := playlists_seq st + 1;
                   songs := songs st; songs_seq := songs_seq st |};
       calls := (cs ++ [CallHandler])%list |}.
Proof.
  intros Ha (_ & Hk & _) Hmax Hn. rewrite (route_proceeds _ _ _ _ _ _ _ _ Ha).
  apply auth_proceeds in Ha as (u & _ & _ & -> & Hin & _).
  exists u. split; [done|].
  apply keys_below_fresh in Hk.
  assert (Hex : existsb (has_id (user_id u)) (users st) = true).
  { apply existsb_exists. exists u. split; [done|]. apply Z.eqb_refl. }
  unfold post_playlists. simpl. rewrite Hn. unfold Playlist_create.
  rewrite (proj2 (Z.ltb_ge _ _)) by lia. by rewrite Hk, Hex.
Qed.

(** For a request [auth] lets through as a user who has a playlist with
    the given id, on a store whose keys are below their sequences, with
    the songs' sequence not yet at the last key of the column, [POST
    /playlists/:id/songs] with fields the store takes always answers 201
    with the new song, its fields as the store holds them, under that
    playlist id. *)
Theorem create_song_succeeds req now_ms st req' cs u p title artist album :
  auth L jwtSecret req now_ms st = (Proceed req', cs) ->
  req_user req' = Some u ->
  keys_ok st ->
  songs_seq st < max_key ->
  In p (playlists st) -> owns u p -> playlist_id p = params_id req ->
  text_value L (prop (body req) "title") = inr title ->
  text_value L (prop (body req) "artist") = inr artist ->
  text_value L (prop (body req) "album") = inr album ->
  let row := {| song_id := songs_seq st + 1; song_title := title; song_artist := artist;
                song_album := album; song_playlistId := Some (params_id req) |} in
  route L jwtSecret (post_songs L) req now_ms st =
  {| out := Sent 201 (JsonObj (song_json row));
     store := {| users := users st; users_seq := users_seq st;
                 playlists := playlists st; playlists_seq := playlists_seq st;
                 songs := (songs st ++ [row])%list; songs_seq := songs_seq st + 1 |};
     calls := (cs ++ [CallHandler])%list |}.
Proof.
  intros Ha Hu (_ & _ & Hk) Hmax Hin Ho Hid Ht Har Hal row.
  rewrite (route_proceeds _ _ _ _ _ _ _ _ Ha).
  apply auth_proceeds in Ha as (u' & _ & _ & -> & _).
  simpl in Hu. injection Hu as ->.
  apply keys_below_fresh in Hk.
  unfold post_songs. simpl.
  destruct (Playlist_findOne (user_id u) (params_id req) st) as [q|] eqn:Eq.
  2:{ pose proof (find_none _ _ Eq p Hin) as Hf.
      assert (owned_with_id (user_id u) (params_id req) p = true) by (by apply owned_with_id_spec).
      congruence. }
  apply findOne_some in Eq as (Hq & _ & Hqid).
  assert (Hex : existsb (fun p0 => (playlist_id p0 =? playlist_id q)%Z) (playlists st) = true).
  { apply existsb_exists. exists q. split; [done|]. apply Z.eqb_refl. }
  rewrite Ht, Har, Hal. unfold Song_create.
  rewrite (proj2 (Z.ltb_ge _ _)) by lia. rewrite Hk, Hex. subst row. by rewrite Hqid.
Qed.

(** The delete handler once the store has read the id as a key. *)
Lemma delete_at_key req st u :
  req_user req = Some u ->
  let r := delete_playlist req st in
  (Playlist_findOne (user_id u) (params_id req) st = None ->
   r = (Sent 404 (error_body "Not found"), st)) /\
  (forall p, Playlist_findOne (user_id u) (params_id req) st = Some p ->
   exists n, 1 <= n /\ r.1 = Sent 200 (JsonNum n)) /\
  get_playlist req r.2 = (Sent 404 (error_body "Not found"), r.2) /\
  delete_playlist req r.2 = (Sent 404 (error_body "Not found"), r.2).
Proof.
  intros Hu r.
  assert (Hnone : forall st0, Playlist_findOne (user_id u) (params_id req) st0 = None ->
                    delete_playlist req st0 = (Sent 404 (error_body "Not found"), st0)).
  { intros st0 Hf. unfold delete_playlist, Playlist_destroy. rewrite Hu.
    destruct (find_filter_none _ _ Hf) as [-> ->]. simpl.
    rewrite (map_ext _ id orphan_nil), map_id. by destruct st0. }
  assert (Hgone : Playlist_findOne (user_id u) (params_id req) r.2 = None).
  { subst r. unfold delete_playlist, Playlist_destroy. rewrite Hu.
    destruct (_ =? 0)%Z; simpl; apply find_after_filter. }
  split; [by apply Hnone|]. split.
  - intros p Hp. subst r. unfold delete_playlist, Playlist_destroy. rewrite Hu.
    apply find_filter_some in Hp.
    destruct (Z.of_nat _ =? 0)%Z eqn:E; [apply Z.eqb_eq in E; lia|].
    eexists. split; [|done]. lia.
  - split; [|by apply Hnone].
    unfold get_playlist. rewrite Hu. unfold Playlist_findOne in Hgone. unfold Playlist_findOne.
    by rewrite Hgone.
Qed.

(** [DELETE /playlists/:id] on the text of the id.  When the store cannot
    read it as a key, the delete and the show both throw and the store is
    as it was.  When it reads it as a key: 404, with the store as it was,
    if the user has no playlist with that key; otherwise 200 with the
    number of rows deleted, at least one.  Either way the user has no
    playlist with that key afterwards: showing it and deleting it again
    both answer 404. *)
Theorem delete_playlist_outcome read_key raw req st u :
  req_user req = Some u ->
  let r := at_id read_key raw delete_playlist req st in
  (read_key raw = None ->
   r = (Rejected unreadable_key, st) /\
   at_id read_key raw get_playlist req st = (Rejected unreadable_key, st)) /\
  (forall k, read_key raw = Some k ->
   (Playlist_findOne (user_id u) k st = None ->
    r = (Sent 404 (error_body "Not found"), st)) /\
   (forall p, Playlist_findOne (user_id u) k st = Some p ->
    exists n, 1 <= n /\ r.1 = Sent 200 (JsonNum n)) /\
   at_id read_key raw get_playlist req r.2 = (Sent 404 (error_body "Not found"), r.2) /\
   at_id read_key raw delete_playlist req r.2 = (Sent 404 (error_body "Not found"), r.2)).
Proof.
  intros Hu r. subst r. unfold at_id. rewrite Hu. split.
  - by intros ->.
  - intros k ->. exact (delete_at_key (with_id req k) st u Hu).
Qed.

(** The new playlist in the model's scan of the table. *)
Lemma created_playlist_in_scan req st b st' u show :
  req_user req = Some u ->
  post_playlists L req st = (Sent 201 b, st') ->
  store_ok st ->
  req_user show = Some u -> params_id show = playlists_seq st + 1 ->
  exists name,
    text_value L (prop (body req) "name") = inr name /\
    get_playlist show st' =
      (Sent 200 (JsonObj [("id", JsonNum (playlists_seq st + 1)); ("name", json_text name);
                          ("songs", JsonArr [])]), st') /\
    get_playlists show st' =
      (Sent 200 (JsonArr (map playlist_brief (List.filter (owned_by (user_id u)) (playlists st)) ++
                          [JsonObj [("id", JsonNum (playlists_seq st + 1));
                                    ("name", json_text name)]])%list), st').
Proof.
  intros Hu Hp [(_ & Hk & _) [_ Hr]] Hs Hid.
  apply (post_playlists_201 _ _ _ _ _ _ Hu) in Hp as (name & Hn & Hex & _ & ->).
  exists name. split; [done|].
  assert (Hown : owned_by (user_id u)
                   {| playlist_id := playlists_seq st + 1; playlist_name := name;
                      playlist_userId := Some (user_id u) |} = true)
    by (by apply bool_decide_eq_true_2).
  split.
  - unfold get_playlist, Playlist_findOne. rewrite Hs, Hid. simpl.
    rewrite find_appended.
    + unfold with_songs. simpl.
      assert (Hnos : List.filter (in_playlist (playlists_seq st + 1)) (songs st) = []).
      { destruct (List.filter _ (songs st)) as [|s l] eqn:E; [done|].
        assert (Hin : In s (List.filter (in_playlist (playlists_seq st + 1)) (songs st)))
          by (rewrite E; by left).
        apply filter_In in Hin as [Hin Hpl]. apply bool_decide_eq_true_1 in Hpl.
        destruct (Hr s _ Hin Hpl) as (p & Hp & Hpid).
        destruct Hk as [_ Hle]. specialize (Hle p Hp). lia. }
      by rewrite Hnos.
    + apply not_true_is_false. intros H. apply existsb_exists in H as (p & Hp & Ho).
      apply andb_true_iff in Ho as [_ Ho].
      assert (existsb (fun p0 => (playlist_id p0 =? playlists_seq st + 1)%Z) (playlists st) = true)
        by (apply existsb_exists; by exists p).
      congruence.
    + unfold owned_with_id. rewrite Hown. simpl. apply Z.eqb_refl.
  - unfold get_playlists, Playlist_findAll. rewrite Hs. simpl.
    rewrite filter_app_one, Hown, map_app. done.
Qed.

(** After [POST /playlists] has answered 201 on a well-formed store, the
    owner's list holds what it held before and the new playlist, and the
    new playlist shows with no songs. *)
Theorem created_playlist_shows req st b st' u show :
  req_user req = Some u ->
  post_playlists L req st = (Sent 201 b, st') ->
  store_ok st ->
  req_user show = Some u -> params_id show = playlists_seq st + 1 ->
  exists name before after,
    text_value L (prop (body req) "name") = inr name /\
    get_playlist show st' =
      (Sent 200 (JsonObj [("id", JsonNum (playlists_seq st + 1)); ("name", json_text name);
                          ("songs", JsonArr [])]), st') /\
    get_playlists show st = (Sent 200 (JsonArr before), st) /\
    get_playlists show st' = (Sent 200 (JsonArr after), st') /\
    forall j, In j after <->
              In j before \/
              j = JsonObj [("id", JsonNum (playlists_seq st + 1)); ("name", json_text name)].
Proof.
  intros Hu Hp Hok Hs Hid.
  destruct (created_playlist_in_scan req st b st' u show Hu Hp Hok Hs Hid)
    as (name & Hn & Hshow & Hlist).
  exists name, (map playlist_brief (List.filter (owned_by (user_id u)) (playlists st))).
  eexists. split; [done|]. split; [done|]. split.
  { unfold get_playlists. by rewrite Hs. }
  split; [exact Hlist|].
  intros j. rewrite in_app_iff. simpl. intuition.
Qed.

(** The new song in the model's scan of the table. *)
Lemma created_song_in_scan req st b st' u :
  req_user req = Some u ->
  post_songs L req st = (Sent 201 b, st') ->
  exists p old title artist album,
    get_playlist req st =
      (Sent 200 (JsonObj [("id", JsonNum (playlist_id p)); ("name", json_text (playlist_name p));
                          ("songs", JsonArr old)]), st) /\
    get_playlist req st' =
      (Sent 200 (JsonObj [("id", JsonNum (playlist_id p)); ("name", json_text (playlist_name p));
                          ("songs", JsonArr (old ++
                             [JsonObj [("id", JsonNum (songs_seq st + 1));
                                       ("title", json_text title); ("album", json_text album);
                                       ("artist", json_text artist)]])%list)]), st') /\
    text_value L (prop (body req) "title") = inr title /\
    text_value L (prop (body req) "artist") = inr artist /\
    text_value L (prop (body req) "album") = inr album.
Proof.
  intros Hu Hp.
  assert (Hfields : exists title artist album,
             text_value L (prop (body req) "title") = inr title /\
             text_value L (prop (body req) "artist") = inr artist /\
             text_value L (prop (body req) "album") = inr album /\
             forall p, Playlist_findOne (user_id u) (params_id req) st = Some p ->
               st' = {| users := users st; users_seq := users_seq st;
                        playlists := playlists st; playlists_seq := playlists_seq st;
                        songs := (songs st ++
                                  [ {| song_id := songs_seq st + 1; song_title := title;
                                       song_artist := artist; song_album := album;
                                       song_playlistId := Some (playlist_id p) |} ])%list;
                        songs_seq := songs_seq st + 1 |}).
  { revert Hp. unfold post_songs. rewrite Hu.
    destruct (Playlist_findOne _ _ st) as [p|] eqn:Ep; [|done].
    destruct (text_value L (prop (body req) "title")) as [e|title];
      destruct (text_value L (prop (body req) "artist")) as [e'|artist];
      destruct (text_value L (prop (body req) "album")) as [e''|album]; try done.
    unfold Song_create.
    destruct (max_key <? _)%Z; [done|].
    destruct (existsb _ (songs st)); [done|].
    destruct (existsb _ (playlists st)); [|done].
    intros [= _ <-]. exists title, artist, album. repeat split. by intros ? [= <-]. }
  destruct Hfields as (title & artist & album & Ht & Har & Hal & Hst).
  apply (post_songs_201 _ _ _ _ _ _ Hu) in Hp as (p & _ & _ & _ & Hf & _ & _).
  rewrite (Hst p Hf).
  exists p, (map (fun s => JsonObj (attributes ["id"; "title"; "album"; "artist"] (song_json s)))
               (List.filter (in_playlist (playlist_id p)) (songs st))), title, artist, album.
  split; [|split; [|done]].
  - unfold get_playlist. by rewrite Hu, Hf.
  - unfold get_playlist. rewrite Hu. unfold Playlist_findOne in *. simpl. rewrite Hf.
    unfold with_songs. simpl. rewrite filter_app_one. unfold in_playlist at 2. simpl.
    rewrite bool_decide_eq_true_2 by done. by rewrite map_app.
Qed.

(** After [POST /playlists/:id/songs] has answered 201, showing that
    playlist gives the songs it showed before and the new song. *)
Theorem created_song_shows req st b st' u :
  req_user req = Some u ->
  post_songs L req st = (Sent 201 b, st') ->
  exists p before after title artist album,
    get_playlist req st =
      (Sent 200 (JsonObj [("id", JsonNum (playlist_id p)); ("name", json_text (playlist_name p));
                          ("songs", JsonArr before)]), st) /\
    get_playlist req st' =
      (Sent 200 (JsonObj [("id", JsonNum (playlist_id p)); ("name", json_text (playlist_name p));
                          ("songs", JsonArr after)]), st') /\
    (forall j, In j after <->
               In j before \/
               j = JsonObj [("id", JsonNum (songs_seq st + 1)); ("title", json_text title);
                            ("album", json_text album); ("artist", json_text artist)]) /\
    text_value L (prop (body req) "title") = inr title /\
    text_value L (prop (body req) "artist") = inr artist /\
    text_value L (prop (body req) "album") = inr album.
Proof.
  intros Hu Hp.
  destruct (created_song_in_scan req st b st' u Hu Hp)
    as (p & old & title & artist & album & Hb & Ha & Ht & Har & Hal).
  exists p, old. eexists. exists title, artist, album.
  split; [exact Hb|]. split; [exact Ha|]. split; [|done].
  intros j. rewrite in_app_iff. simpl. intuition.
Qed.

End Playlists.

(** ** One user's requests and another user's playlists *)

Lemma same_view_refl v st st' :
  playlists st' = playlists st -> songs st' = songs st -> same_view v st st'.
Proof.
  intros Hp Hs. unfold same_view, Playlist_findAll, Playlist_findOne. by rewrite Hp, Hs.
Qed.

Lemma key_inj {A} (key : A -> Z) l x y :
  NoDup (map key l) -> In x l -> In y l -> key x = key y -> x = y.
Proof.
  induction l as [|a l IH]; simpl; [done|].
  intros Hnd Hx Hy Hk. apply NoDup_cons in Hnd as [Hnotin Hnd].
  destruct Hx as [->|Hx], Hy as [->|Hy]; [done| | |by apply IH].
  - destruct Hnotin. rewrite Hk. by apply list_elem_of_In, in_map.
  - destruct Hnotin. rewrite <- Hk. by apply list_elem_of_In, in_map.
Qed.

Lemma owners_differ u v p : user_id u <> user_id v -> owns u p -> owns v p -> False.
Proof. unfold owns. intros Hne Hu Hv. rewrite Hu in Hv. by injection Hv. Qed.

Lemma filter_filter_kept {A} (f g : A -> bool) l :
  (forall x, In x l -> f x = true -> g x = true) ->
  List.filter f (List.filter g l) = List.filter f l.
Proof.
  induction l as [|a l IH]; simpl; intros H; [done|].
  destruct (g a) eqn:Eg; simpl.
  - destruct (f a); rewrite IH; auto.
  - destruct (f a) eqn:Ef; [|apply IH; auto].
    rewrite (H a) in Eg; [done|by left|done].
Qed.

Lemma find_filter_kept {A} (f g : A -> bool) l :
  (forall x, In x l -> f x = true -> g x = true) ->
  List.find f (List.filter g l) = List.find f l.
Proof.
  induction l as [|a l IH]; simpl; intros H; [done|].
  destruct (g a) eqn:Eg; simpl.
  - destruct (f a); [done|]. apply IH. auto.
  - destruct (f a) eqn:Ef; [|apply IH; auto].
    rewrite (H a) in Eg; [done|by left|done].
Qed.

Lemma orphan_cases gone s :
  orphan gone s = s \/
  (song_playlistId (orphan gone s) = None /\
   exists i, song_playlistId s = Some i /\ i ∈ gone).
Proof.
  unfold orphan. destruct (song_playlistId s) as [i|] eqn:Ei; [|by left].
  case_bool_decide as Hi; [|by left]. right. split; [done|]. by exists i.
Qed.

Lemma filter_orphan gone j l :
  j ∉ gone ->
  List.filter (in_playlist j) (map (orphan gone) l) = List.filter (in_playlist j) l.
Proof.
  intros Hj. induction l as [|s l IH]; simpl; [done|].
  rewrite IH.
  destruct (orphan_cases gone s) as [-> | (Hnone & i & Hi & Hin)]; [done|].
  unfold in_playlist. rewrite Hnone, Hi.
  rewrite bool_decide_eq_false_2 by done.
  rewrite bool_decide_eq_false_2; [done|]. by intros [= ->].
Qed.

Lemma post_playlists_other L req st u v :
  req_user req = Some u -> user_id u <> user_id v ->
  same_view v st (post_playlists L req st).2.
Proof.
  intros Hu Hne. unfold post_playlists. rewrite Hu.
  destruct (text_value L _) as [e|name]; [by apply same_view_refl|].
  unfold Playlist_create.
  destruct (max_key <? _)%Z; [by apply same_view_refl|].
  destruct (existsb _ (playlists st)); [by apply same_view_refl|].
  destruct (existsb _ (users st)); [|by apply same_view_refl].
  assert (Hmiss : owned_by (user_id v)
                    {| playlist_id := playlists_seq st + 1; playlist_name := name;
                       playlist_userId := Some (user_id u) |} = false).
  { apply bool_decide_eq_false_2. simpl. congruence. }
  unfold same_view, Playlist_findAll, Playlist_findOne. simpl. split; [|split; [|done]].
  - by rewrite filter_app_one, Hmiss, app_nil_r.
  - intros k. apply find_app_miss. unfold owned_with_id. by rewrite Hmiss.
Qed.

Lemma post_songs_other L req st u v :
  keys_ok st -> req_user req = Some u -> user_id u <> user_id v ->
  same_view v st (post_songs L req st).2.
Proof.
  intros (_ & [Hnd _] & _) Hu Hne. unfold post_songs. rewrite Hu.
  destruct (Playlist_findOne _ _ st) as [q|] eqn:Eq; [|by apply same_view_refl].
  apply findOne_some in Eq as (Hq & Hoq & _).
  destruct (text_value L (prop (body req) "title")) as [e|title];
    destruct (text_value L (prop (body req) "artist")) as [e'|artist];
    destruct (text_value L (prop (body req) "album")) as [e''|album];
    try by apply same_view_refl.
  unfold Song_create.
  destruct (max_key <? _)%Z; [by apply same_view_refl|].
  destruct (existsb _ (songs st)); [by apply same_view_refl|].
  destruct (existsb _ (playlists st)); [|by apply same_view_refl].
  unfold same_view, Playlist_findAll, Playlist_findOne. simpl.
  split; [done|]. split; [done|].
  intros p Hp Hop. rewrite filter_app_one. unfold in_playlist at 2. simpl.
  rewrite bool_decide_eq_false_2; [by rewrite app_nil_r|].
  intros [= Hid]. assert (q = p) as -> by (by eapply key_inj).
  by eapply owners_differ.
Qed.

Lemma delete_playlist_other req st u v :
  keys_ok st -> req_user req = Some u -> user_id u <> user_id v ->
  same_view v st (delete_playlist req st).2.
Proof.
  intros (_ & [Hnd _] & _) Hu Hne. unfold delete_playlist. rewrite Hu.
  assert (Hv : same_view v st (Playlist_destroy (user_id u) (params_id req) st).2).
  { assert (Hkept : forall k p, In p (playlists st) -> owned_by (user_id v) p = true ->
                      negb (owned_with_id (user_id u) k p) = true).
    { intros k p _ Hp. apply negb_true_iff, not_true_is_false. intros Ho.
      apply owned_with_id_spec in Ho as [Ho _]. apply owned_by_owns in Hp.
      by eapply owners_differ. }
    unfold same_view, Playlist_destroy, Playlist_findAll, Playlist_findOne. simpl.
    split; [|split].
    - apply filter_filter_kept. apply Hkept.
    - intros k. apply find_filter_kept. intros p Hp Ho.
      apply andb_true_iff in Ho as [Ho _]. by apply Hkept.
    - intros p Hp Hop. apply filter_orphan. intros Hin.
      apply list_elem_of_In, in_map_iff in Hin as (q & Hid & Hq).
      apply filter_In in Hq as [Hq Hoq]. apply owned_with_id_spec in Hoq as [Hoq _].
      assert (q = p) as -> by (by eapply key_inj).
      by eapply owners_differ. }
  destruct (Playlist_destroy _ _ st) as [n st1]. simpl in Hv. by destruct (n =? 0)%Z.
Qed.

Lemma post_users_other L req random st v : same_view v st (post_users L req random st).2.
Proof.
  unfold post_users.
  destruct (strict_eq _ _); simpl; [|by apply same_view_refl].
  destruct (hashSync L _ random); [by apply same_view_refl|].
  destruct (text_value L _); [by apply same_view_refl|].
  unfold User_create.
  destruct (max_key <? _)%Z; [by apply same_view_refl|].
  destruct (existsb _ (users st)); [by apply same_view_refl|].
  by destruct (User_find _ _); apply same_view_refl.
Qed.

Lemma same_view_reads v show st st' :
  req_user show = Some v -> same_view v st st' ->
  (get_playlists show st').1 = (get_playlists show st).1 /\
  (get_playlist show st').1 = (get_playlist show st).1.
Proof.
  intros Hv (Hall & Hone & Hsongs). unfold get_playlists, get_playlist. rewrite Hv. split.
  - simpl. by rewrite Hall.
  - rewrite Hone.
    destruct (Playlist_findOne (user_id v) (params_id show) st) as [p|] eqn:Ep; [|done].
    apply findOne_some in Ep as (Hp & Ho & _). simpl. unfold with_songs.
    by rewrite (Hsongs p Hp Ho).
Qed.

(** On a store with distinct keys, whatever request one user, or nobody,
    has served by any of the seven routes, another user's list of playlists
    and every playlist that user is shown, songs included, are afterwards
    the same as before. *)
Theorem other_users_views_unchanged L jwtSecret ep req now_ms random st v show :
  keys_ok st ->
  req_user show = Some v ->
  (forall u, actor L jwtSecret req now_ms st = Some u -> user_id u <> user_id v) ->
  let st' := store (serve L jwtSecret ep req now_ms random st) in
  (get_playlists show st').1 = (get_playlists show st).1 /\
  (get_playlist show st').1 = (get_playlist show st).1.
Proof.
  intros Hk Hv Hact st'. apply (same_view_reads v); [done|]. subst st'.
  assert (Hroute : forall handler,
            (forall req' u, req_user req' = Some u -> user_id u <> user_id v ->
                            same_view v st (handler req' st).2) ->
            same_view v st (store (route L jwtSecret handler req now_ms st))).
  { intros handler Hh. unfold route. unfold actor in Hact.
    destruct (auth L jwtSecret req now_ms st) as [[req'|o] cs] eqn:Ea;
      [|by apply same_view_refl].
    destruct (auth_proceeds _ _ _ _ _ _ _ Ea) as (u & _ & _ & Hreq & _).
    assert (Hu : req_user req' = Some u) by (by rewrite Hreq).
    specialize (Hh req' u Hu (Hact u Hu)). by destruct (handler req' st). }
  destruct ep; simpl.
  - apply Hroute. intros req' u Hu _. unfold get_playlists. rewrite Hu. by apply same_view_refl.
  - apply Hroute. intros req' u Hu _. unfold get_playlist. rewrite Hu.
    by destruct (Playlist_findOne _ _ _); apply same_view_refl.
  - apply Hroute. intros req' u Hu Hne. by apply (post_playlists_other L req' st u v).
  - apply Hroute. intros req' u Hu Hne. by apply (delete_playlist_other req' st u v).
  - apply Hroute. intros req' u Hu Hne. by apply (post_songs_other L req' st u v).
  - pose proof (post_users_other L req random st v) as H.
    by destruct (post_users L req random st).
  - pose proof (post_tokens_store L jwtSecret req now_ms st) as H.
    destruct (post_tokens L jwtSecret req now_ms st). simpl in *. subst.
    by apply same_view_refl.
Qed.

(** ** What responses never carry *)

Lemma has_key_text k t : has_key k (json_text t) = false.
Proof. by destruct t. Qed.

Lemma has_key_key k n : has_key k (json_key n) = false.
Proof. by destruct n. Qed.

Lemma existsb_map_false {A B} (g : B -> bool) (f : A -> B) l :
  (forall x, g (f x) = false) -> existsb g (map f l) = false.
Proof. intros H. induction l as [|a l IH]; simpl; [done|]. by rewrite H, IH. Qed.

Lemma has_key_error msg : has_key "password" (error_body msg) = false.
Proof. reflexivity. Qed.

Lemma song_brief_clean s :
  has_key "password" (JsonObj (attributes ["id"; "title"; "album"; "artist"] (song_json s))) = false.
Proof. simpl. by rewrite !has_key_text. Qed.

Lemma playlist_brief_clean p :
  has_key "password" (JsonObj (attributes ["id"; "name"] (playlist_json p))) = false.
Proof. simpl. by rewrite !has_key_text. Qed.

Lemma handlers_clean L jwtSecret :
  (forall req st status b, (get_playlists req st).1 = Sent status b -> has_key "password" b = false) /\
  (forall req st status b, (get_playlist req st).1 = Sent status b -> has_key "password" b = false) /\
  (forall req st status b, (post_playlists L req st).1 = Sent status b -> has_key "password" b = false) /\
  (forall req st status b, (delete_playlist req st).1 = Sent status b -> has_key "password" b = false) /\
  (forall req st status b, (post_songs L req st).1 = Sent status b -> has_key "password" b = false) /\
  (forall req random st status b,
     (post_users L req random st).1 = Sent status b -> has_key "password" b = false) /\
  (forall req now_ms st status b,
     (post_tokens L jwtSecret req now_ms st).1 = Sent status b -> has_key "password" b = false).
Proof.
  repeat split.
  - intros req st status b. unfold get_playlists.
    destruct (req_user req); [|done]. simpl. intros [= _ <-]. simpl.
    apply existsb_map_false. intros p. apply playlist_brief_clean.
  - intros req st status b. unfold get_playlist.
    destruct (req_user req); [|done].
    destruct (Playlist_findOne _ _ st) as [p|]; simpl; intros [= _ <-]; [|done].
    simpl. rewrite has_key_text. simpl. rewrite orb_false_r.
    apply existsb_map_false. intros s. apply song_brief_clean.
  - intros req st status b. unfold post_playlists.
    destruct (req_user req); [|done].
    destruct (text_value L _); [done|]. unfold Playlist_create. destruct (max_key <? _)%Z; [done|].
    destruct (existsb _ (playlists st)); [done|].
    destruct (existsb _ (users st)); [|done].
    simpl. intros [= _ <-]. simpl. by rewrite has_key_text.
  - intros req st status b. unfold delete_playlist.
    destruct (req_user req); [|done].
    destruct (Playlist_destroy _ _ st) as [n st1].
    by destruct (n =? 0)%Z; simpl; intros [= _ <-].
  - intros req st status b. unfold post_songs.
    destruct (req_user req); [|done].
    destruct (Playlist_findOne _ _ st); [|by simpl; intros [= _ <-]].
    destruct (text_value L (prop (body req) "title"));
      destruct (text_value L (prop (body req) "artist"));
      destruct (text_value L (prop (body req) "album")); try done.
    unfold Song_create.
    destruct (max_key <? _)%Z; [done|].
    destruct (existsb _ (songs st)); [done|].
    destruct (existsb _ (playlists st)); [|done].
    simpl. intros [= _ <-]. simpl. by rewrite !has_key_text.
  - intros req random st status b. unfold post_users.
    destruct (strict_eq _ _); simpl; [|by intros [= _ <-]].
    destruct (hashSync L _ random); [done|].
    destruct (text_value L _); [done|]. unfold User_create. destruct (max_key <? _)%Z; [done|].
    destruct (existsb _ (users st)); [done|].
    destruct (User_find _ _) as [u|]; simpl; intros [= _ <-]; [|done].
    simpl. by rewrite has_key_text.
  - intros req now_ms st status b. unfold post_tokens.
    destruct (User_findOne L _ st) as [e|[u|]]; [done| |by simpl; intros [= _ <-]].
    by destruct (compareSync L _ _) as [e|[|]]; simpl; intros [= _ <-].
Qed.

(** No response that any of the seven routes sends, the answers of [auth]
    included, has a member called [password] at any depth: the stored hash
    is never serialised. *)
Theorem responses_never_carry_password L jwtSecret ep req now_ms random st status b :
  out (serve L jwtSecret ep req now_ms random st) = Sent status b ->
  has_key "password" b = false.
Proof.
  destruct (handlers_clean L jwtSecret) as (H1 & H2 & H3 & H4 & H5 & H6 & H7).
  assert (Hroute : forall handler,
            (forall req' st0 status0 b0, (handler req' st0).1 = Sent status0 b0 ->
                                         has_key "password" b0 = false) ->
            out (route L jwtSecret handler req now_ms st) = Sent status b ->
            has_key "password" b = false).
  { intros handler Hh. unfold route, auth.
    destruct (bearer_token _) as [tok|]; [|by simpl; intros [= _ <-]].
    destruct (toData _ _ _ _) as [e|data].
    { simpl. intros [= _ <-]. apply has_key_error. }
    destruct (User_findByPk L _ st) as [e|[u|]]; [done| |done].
    specialize (Hh (set_user req u) st status b).
    by destruct (handler (set_user req u) st). }
  destruct ep; simpl.
  - by apply Hroute.
  - by apply Hroute.
  - by apply Hroute.
  - by apply Hroute.
  - by apply Hroute.
  - specialize (H6 req random st status b). by destruct (post_users L req random st).
  - specialize (H7 req now_ms st status b). by destruct (post_tokens L jwtSecret req now_ms st).
Qed.

(** ** The further properties on the sample store *)

Lemma sample_store_ok : store_ok Sample.two_users.
Proof.
  assert (Hnd : NoDup [1; 2]).
  { apply NoDup_cons. split; [|apply NoDup_singleton].
    intros H. apply list_elem_of_In in H. simpl in H. intuition lia. }
  split; [split; [|split]|split]; simpl.
  - split; [exact Hnd|]. intros r [<- | [<- | []]]; simpl; lia.
  - split; [exact Hnd|]. intros r [<- | [<- | []]]; simpl; lia.
  - split; [exact Hnd|]. intros r [<- | [<- | []]]; simpl; lia.
  - intros p k [<- | [<- | []]] [= <-]; [exists Sample.ann | exists Sample.bob]; simpl; auto.
  - intros s k [<- | [<- | []]] [= <-].
    + exists {| playlist_id := 1; playlist_name := Some "a"; playlist_userId := Some 1 |}.
      simpl. auto.
    + exists {| playlist_id := 2; playlist_name := Some "b"; playlist_userId := Some 2 |}.
      simpl. auto.
Qed.

Lemma ann_own_proceeds :
  auth Sample.lib Sample.secret ann_own 6000 Sample.two_users =
  (Proceed (set_user ann_own Sample.ann), ann_calls).
Proof. vm_compute. reflexivity. Qed.

Lemma register_needs_string_witness :
  (post_users Sample.lib nameless "r4" Sample.two_users).2 = Sample.two_users /\
  exists e, (post_users Sample.lib nameless "r4" Sample.two_users).1 = Rejected e.
Proof.
  destruct (register_needs_string Sample.lib nameless "r4" Sample.two_users) as (Hst & _ & Hrej).
  - intros s. vm_compute. discriminate.
  - split; [exact Hst|]. apply Hrej; vm_compute; [reflexivity|discriminate].
Defined.

Lemma register_then_login_witness :
  post_tokens Sample.lib Sample.secret cy_login 9000
    (post_users Sample.lib cy_request "r3" Sample.two_users).2 =
  (Sent 200 (JsonObj [("token", JsonStr (toJWT Sample.lib Sample.secret {| userId := 3 |} 9000))]),
   (post_users Sample.lib cy_request "r3" Sample.two_users).2).
Proof.
  apply (register_then_login Sample.lib Sample.secret cy_request "r3" Sample.two_users
           (JsonObj [("id", JsonNum 3); ("email", JsonStr "cy@example.org")]) _
           "cy@example.org" cy_login 9000).
  - vm_compute. reflexivity.
  - vm_compute. reflexivity.
  - intros v [<- | [<- | []]]; vm_compute; discriminate.
  - intros pw H. vm_compute in H. injection H as <-. split; vm_compute; reflexivity.
  - vm_compute. reflexivity.
  - vm_compute. reflexivity.
Defined.

Lemma registration_succeeds_witness :
  post_users Sample.lib cy_request "r3" Sample.two_users =
  (Sent 201 (JsonObj [("id", JsonNum 3); ("email", JsonStr "cy@example.org")]),
   {| users := [Sample.ann; Sample.bob;
                {| user_id := 3; user_email := Some "cy@example.org";
                   user_password := Some "$2b$10$r3#pw3" |}];
      users_seq := 3; playlists := playlists Sample.two_users; playlists_seq := 2;
      songs := songs Sample.two_users; songs_seq := 2 |}).
Proof.
  pose proof (registration_succeeds Sample.lib cy_request "r3" Sample.two_users "pw3"
                (Some "cy@example.org") (proj1 sample_store_ok) ltac:(vm_compute; reflexivity)
                ltac:(vm_compute; reflexivity) ltac:(vm_compute; reflexivity)
                ltac:(vm_compute; reflexivity)) as H.
  rewrite H. vm_compute. reflexivity.
Defined.

Lemma serve_keeps_store_ok_witness :
  store_ok (store (serve Sample.lib Sample.secret DeletePlaylist ann_own 6000 "" Sample.two_users)).
Proof. apply serve_keeps_store_ok, sample_store_ok. Defined.

Lemma create_playlist_succeeds_witness :
  exists u,
    req_user (set_user ann_own Sample.ann) = Some u /\
    route Sample.lib Sample.secret (post_playlists Sample.lib) ann_own 6000 Sample.two_users =
    {| out := Sent 201 (JsonObj [("id", JsonNum (playlists_seq Sample.two_users + 1));
                                 ("name", json_text (Some "mine")); ("userId", JsonNum (user_id u))]);
       store := {| users := users Sample.two_users; users_seq := users_seq Sample.two_users;
                   playlists := (playlists Sample.two_users ++
                                 [ {| playlist_id := playlists_seq Sample.two_users + 1;
                                      playlist_name := Some "mine";
                                      playlist_userId := Some (user_id u) |} ])%list;
                   playlists_seq := playlists_seq Sample.two_users + 1;
                   songs := songs Sample.two_users; songs_seq := songs_seq Sample.two_users |};
       calls := (ann_calls ++ [CallHandler])%list |}.
Proof.
  apply (create_playlist_succeeds Sample.lib Sample.secret ann_own 6000 Sample.two_users
           _ _ (Some "mine") ann_own_proceeds (proj1 sample_store_ok)).
  - vm_compute. reflexivity.
  - vm_compute. reflexivity.
Defined.

Lemma create_song_succeeds_witness :
  route Sample.lib Sample.secret (post_songs Sample.lib) ann_own 6000 Sample.two_users =
  {| out := Sent 201 (JsonObj (song_json {| song_id := 3; song_title := Some "x";
                                            song_artist := None; song_album := None;
                                            song_playlistId := Some 1 |}));
     store := {| users := users Sample.two_users; users_seq := 2;
                 playlists := playlists Sample.two_users; playlists_seq := 2;
                 songs := (songs Sample.two_users ++
                           [ {| song_id := 3; song_title := Some "x"; song_artist := None;
                                song_album := None; song_playlistId := Some 1 |} ])%list;
                 songs_seq := 3 |};
     calls := (ann_calls ++ [CallHandler])%list |}.
Proof.
  apply (create_song_succeeds Sample.lib Sample.secret ann_own 6000 Sample.two_users
           _ _ Sample.ann
           {| playlist_id := 1; playlist_name := Some "a"; playlist_userId := Some 1 |}
           (Some "x") None None ann_own_proceeds eq_refl (proj1 sample_store_ok)).
  - vm_compute. reflexivity.
  - simpl. auto.
  - reflexivity.
  - reflexivity.
  - vm_compute. reflexivity.
  - vm_compute. reflexivity.
  - vm_compute. reflexivity.
Defined.

Lemma delete_playlist_outcome_witness :
  (exists n, 1 <= n /\
     (at_id Sample.read_int32 "1" delete_playlist (as_user Sample.ann 0) Sample.two_users).1
     = Sent 200 (JsonNum n)) /\
  at_id Sample.read_int32 "1" get_playlist (as_user Sample.ann 0)
    (at_id Sample.read_int32 "1" delete_playlist (as_user Sample.ann 0) Sample.two_users).2 =
  (Sent 404 (error_body "Not found"),
   (at_id Sample.read_int32 "1" delete_playlist (as_user Sample.ann 0) Sample.two_users).2).
Proof.
  destruct (delete_playlist_outcome Sample.read_int32 "1" (as_user Sample.ann 0)
              Sample.two_users Sample.ann eq_refl) as (_ & H).
  destruct (H 1 eq_refl) as (_ & Hsome & Hget & _).
  split; [|exact Hget].
  apply (Hsome {| playlist_id := 1; playlist_name := Some "a"; playlist_userId := Some 1 |}).
  vm_compute. reflexivity.
Defined.

Lemma created_playlist_shows_witness :
  exists name before after,
    text_value Sample.lib (prop (body (as_user Sample.ann 0)) "name") = inr name /\
    get_playlist (as_user Sample.ann 3)
      (post_playlists Sample.lib (as_user Sample.ann 0) Sample.two_users).2 =
      (Sent 200 (JsonObj [("id", JsonNum (playlists_seq Sample.two_users + 1));
                          ("name", json_text name); ("songs", JsonArr [])]),
       (post_playlists Sample.lib (as_user Sample.ann 0) Sample.two_users).2) /\
    get_playlists (as_user Sample.ann 3) Sample.two_users =
      (Sent 200 (JsonArr before), Sample.two_users) /\
    get_playlists (as_user Sample.ann 3)
      (post_playlists Sample.lib (as_user Sample.ann 0) Sample.two_users).2 =
      (Sent 200 (JsonArr after),
       (post_playlists Sample.lib (as_user Sample.ann 0) Sample.two_users).2) /\
    forall j, In j after <->
              In j before \/
              j = JsonObj [("id", JsonNum (playlists_seq Sample.two_users + 1));
                           ("name", json_text name)].
Proof.
  apply (created_playlist_shows Sample.lib (as_user Sample.ann 0) Sample.two_users
           (JsonObj (playlist_json {| playlist_id := 3; playlist_name := Some "mine";
                                      playlist_userId := Some 1 |}))
           _ Sample.ann (as_user Sample.ann 3) eq_refl).
  - vm_compute. reflexivity.
  - apply sample_store_ok.
  - reflexivity.
  - reflexivity.
Defined.

Lemma created_song_shows_witness :
  exists p before after title artist album,
    get_playlist (as_user Sample.ann 1) Sample.two_users =
      (Sent 200 (JsonObj [("id", JsonNum (playlist_id p)); ("name", json_text (playlist_name p));
                          ("songs", JsonArr before)]), Sample.two_users) /\
    get_playlist (as_user Sample.ann 1)
      (post_songs Sample.lib (as_user Sample.ann 1) Sample.two_users).2 =
      (Sent 200 (JsonObj [("id", JsonNum (playlist_id p)); ("name", json_text (playlist_name p));
                          ("songs", JsonArr after)]),
       (post_songs Sample.lib (as_user Sample.ann 1) Sample.two_users).2) /\
    (forall j, In j after <->
               In j before \/
               j = JsonObj [("id", JsonNum (songs_seq Sample.two_users + 1));
                            ("title", json_text title); ("album", json_text album);
                            ("artist", json_text artist)]) /\
    text_value Sample.lib (prop (body (as_user Sample.ann 1)) "title") = inr title /\
    text_value Sample.lib (prop (body (as_user Sample.ann 1)) "artist") = inr artist /\
    text_value Sample.lib (prop (body (as_user Sample.ann 1)) "album") = inr album.
Proof.
  apply (created_song_shows Sample.lib (as_user Sample.ann 1) Sample.two_users
           (JsonObj (song_json {| song_id := 3; song_title := Some "x"; song_artist := None;
                                  song_album := None; song_playlistId := Some 1 |}))
           _ Sample.ann eq_refl).
  vm_compute. reflexivity.
Defined.

Lemma other_users_views_unchanged_witness :
  (get_playlists (as_user Sample.bob 2)
     (store (serve Sample.lib Sample.secret DeletePlaylist ann_own 6000 "" Sample.two_users))).1 =
  (get_playlists (as_user Sample.bob 2) Sample.two_users).1 /\
  (get_playlist (as_user Sample.bob 2)
     (store (serve Sample.lib Sample.secret DeletePlaylist ann_own 6000 "" Sample.two_users))).1 =
  (get_playlist (as_user Sample.bob 2) Sample.two_users).1.
Proof.
  apply (other_users_views_unchanged Sample.lib Sample.secret DeletePlaylist ann_own 6000 ""
           Sample.two_users Sample.bob (as_user Sample.bob 2) (proj1 sample_store_ok) eq_refl).
  intros u Hu. unfold actor in Hu. rewrite ann_own_proceeds in Hu.
  simpl in Hu. injection Hu as <-. vm_compute. discriminate.
Defined.

Lemma responses_never_carry_password_witness :
  has_key "password"
    (JsonObj [("id", JsonNum 3); ("email", JsonStr "cy@example.org")]) = false.
Proof.
  apply (responses_never_carry_password Sample.lib Sample.secret PostUsers cy_request 0 "r3"
           Sample.two_users 201).
  vm_compute. reflexivity.
Defined.
